(** * The NDN client node of src/node.cpp: tables, dispatcher and timer sweep

    A shallow embedding of [ndn::Node] (src/src/node.cpp): the pending
    interest table (PIT), the registered prefix table (RPT), the
    self-registration helper, the receive dispatcher and the periodic PIT
    sweep, followed by the properties of the specification that concern them.

    Reading guide.
    - A [Name] is the list of its components, a component the list of its
      bytes; a wire block is a list of bytes.
    - Both tables are [std::vector]s of shared pointers to records that are
      never mutated after insertion: they are lists of records, indexed with
      stdpp's [!!] and erased with [delete].
    - The two id counters are [uint64_t] statics: integers in [0, 2^64) whose
      increment wraps.
    - Times are 64-bit signed integers of milliseconds; their sum wraps.
    - Application callbacks ([OnData], [OnTimeout], [OnInterest]) are
      [std::function]s: either empty or a handle to a closure of the
      application.  What a closure does when called is a parameter [app] of
      the model: an arbitrary transformation of the node (a callback may
      re-enter the node, let time pass, ...) that returns or raises.
    - The transport and the TLV codec are interfaces of the library that
      node.cpp only consumes: type classes.
    - A member function is a computation [M A]: from a node to an outcome
      (returned, raised, or undefined behaviour), the node afterwards, and
      the list of interactions with the outside world, in order. *)

From Stdlib Require Import ZArith Lia Bool String Sorted.
From Stdlib.Strings Require Import Byte.
From stdpp Require Import base numbers list option.

Local Open Scope Z_scope.

(** ** Bytes, names and packets *)

#[global] Instance byte_eq_dec : EqDecision byte := Byte.byte_eq_dec.

Definition Buffer := list byte.
Definition Block := list byte.
Definition Component := list byte.
Definition Name := list Component.

(** [Name::size]. *)
Definition Name_size (n : Name) : nat := length n.

(** [Name::append]: one more component at the end. *)
Definition Name_append (n : Name) (c : Component) : Name := n ++ [c].

(** Modelled from the spec: [ndn_Name_match] is only declared (name.h); its
    body is not part of the sources.  The declaration documents it as: true
    iff the N components of [self] are the same as the first N components of
    [name], and always true when [self] is empty; the specification calls it
    [isPrefixOf]. *)
Fixpoint ndn_Name_match (self name : Name) : bool :=
  match self, name with
  | [], _ => true
  | _ :: _, [] => false
  | c :: self', d :: name' => bool_decide (c = d) && ndn_Name_match self' name'
  end.

(** Times, in milliseconds.  The two typedefs are not part of the sources;
    the specification has them 64 bits wide and signed. *)
Definition Milliseconds := Z.
Definition MillisecondsSince1970 := Z.


(** The value of a 64-bit signed integer with the bits of [z]. *)
Definition int64_wrap (z : Z) : Z := (z + 2 ^ 63) mod 2 ^ 64 - 2 ^ 63.

(** The sum of two times, as the [+] of node.cpp computes it on 64-bit
    signed integers: the sum when it fits, and the sum wrapped around when
    it does not (the standard leaves signed overflow undefined; the
    addition instruction that the compilers emit wraps). *)
Definition int64_add (a b : Z) : Z := int64_wrap (a + b).

(** An Interest, with the fields node.cpp reads or writes.  The class is
    declared in interest.hpp, which is not part of the sources; the
    specification gives it a name and a lifetime in milliseconds, negative
    when unspecified, and a negative scope likewise stands for none. *)
Record Interest := mkInterest {
  Interest_name : Name;
  Interest_scope : Z;
  Interest_interestLifetime : Milliseconds
}.

(** [Interest(name)] and [Interest(name, lifetime)]: the other fields are
    left unspecified. *)
Definition Interest_of_name (n : Name) : Interest := mkInterest n (-1) (-1).
Definition Interest_of_name_lifetime (n : Name) (l : Milliseconds) : Interest :=
  mkInterest n (-1) l.

Definition Interest_setScope (scope : Z) (i : Interest) : Interest :=
  mkInterest (Interest_name i) scope (Interest_interestLifetime i).

(** Modelled from the spec: [Interest::matchesName] is not part of the
    sources; the specification defines it as the prefix test of the
    Interest's name against the given name. *)
Definition Interest_matchesName (i : Interest) (n : Name) : bool :=
  ndn_Name_match (Interest_name i) n.

Inductive Signature :=
| NoSignature
| SignatureSha256WithRsa (value : Block).

Record Data := mkData {
  Data_name : Name;
  Data_content : Block;
  Data_signature : Signature
}.

(** [Data()]. *)
Definition Data_empty : Data := mkData [] [] NoSignature.
Definition Data_setContent (c : Block) (d : Data) : Data :=
  mkData (Data_name d) c (Data_signature d).
Definition Data_setSignature (s : Signature) (d : Data) : Data :=
  mkData (Data_name d) (Data_content d) s.

Definition ForwardingFlags := Z.

Record ForwardingEntry := mkForwardingEntry {
  fe_action : string;
  fe_prefix : Name;
  fe_faceId : Z;
  fe_forwardingFlags : ForwardingFlags;
  fe_freshnessPeriod : Z
}.

(** The TLV codec, consumed by the node: the wire encodings, decodings and
    type codes live in the library's encoding classes, which are not part of
    the sources, and are left abstract. *)
Class Codec := {
  Tlv_Interest : N;
  Tlv_Data : N;
  Tlv_SignatureValue : N;
  (** [Block::type] *)
  Block_type : Block -> N;
  (** [Block(type, buffer)] *)
  Block_make : N -> Buffer -> Block;
  Interest_wireEncode : Interest -> Block;
  (** [None]: the decoder raises *)
  Interest_wireDecode : Block -> option Interest;
  Data_wireEncode : Data -> Block;
  Data_wireDecode : Block -> option Data;
  ForwardingEntry_wireEncode : ForwardingEntry -> Block
}.

(** ** Callbacks *)

(** A handle to a closure of the application. *)
Definition Handler := nat.

(** A [std::function]: empty, or holding a closure. *)
Definition OnData := option Handler.
Definition OnTimeout := option Handler.
Definition OnInterest := option Handler.

(** ** Table entries *)

Record PendingInterest := mkPendingInterest {
  pendingInterestId_ : Z;
  interest_ : Interest;
  onData_ : OnData;
  onTimeout_ : OnTimeout;
  timeoutTimeMilliseconds_ : MillisecondsSince1970
}.

Record RegisteredPrefix := mkRegisteredPrefix {
  registeredPrefixId_ : Z;
  prefix_ : Name;
  onInterest_ : OnInterest
}.

(** Modelled from the spec: [PendingInterest::isTimedOut] is defined in
    node.hpp, which is not part of the sources; the specification has an
    entry expire when its deadline is at most the current time. *)
Definition isTimedOut (pi : PendingInterest) (nowMilliseconds : MillisecondsSince1970) : bool :=
  timeoutTimeMilliseconds_ pi <=? nowMilliseconds.

(** ** The node *)

(** The members of [Node] that node.cpp uses, the two static counters, and
    the clock that [ndn_getNowMilliseconds] reads. *)
Record Node (T : Type) := mkNode {
  transport_ : T;
  pendingInterestTable_ : list PendingInterest;
  registeredPrefixTable_ : list RegisteredPrefix;
  ndndId_ : Buffer;
  lastPendingInterestId_ : Z;
  lastRegisteredPrefixId_ : Z;
  nowMilliseconds : MillisecondsSince1970
}.
Arguments mkNode {T}.
Arguments transport_ {T}.
Arguments pendingInterestTable_ {T}.
Arguments registeredPrefixTable_ {T}.
Arguments ndndId_ {T}.
Arguments lastPendingInterestId_ {T}.
Arguments lastRegisteredPrefixId_ {T}.
Arguments nowMilliseconds {T}.

Definition set_transport {T} (t : T) (s : Node T) : Node T :=
  mkNode t (pendingInterestTable_ s) (registeredPrefixTable_ s) (ndndId_ s)
    (lastPendingInterestId_ s) (lastRegisteredPrefixId_ s) (nowMilliseconds s).
Definition set_pendingInterestTable {T} (pit : list PendingInterest) (s : Node T) : Node T :=
  mkNode (transport_ s) pit (registeredPrefixTable_ s) (ndndId_ s)
    (lastPendingInterestId_ s) (lastRegisteredPrefixId_ s) (nowMilliseconds s).
Definition set_registeredPrefixTable {T} (rpt : list RegisteredPrefix) (s : Node T) : Node T :=
  mkNode (transport_ s) (pendingInterestTable_ s) rpt (ndndId_ s)
    (lastPendingInterestId_ s) (lastRegisteredPrefixId_ s) (nowMilliseconds s).
Definition set_lastPendingInterestId {T} (id : Z) (s : Node T) : Node T :=
  mkNode (transport_ s) (pendingInterestTable_ s) (registeredPrefixTable_ s) (ndndId_ s)
    id (lastRegisteredPrefixId_ s) (nowMilliseconds s).
Definition set_nowMilliseconds {T} (now : MillisecondsSince1970) (s : Node T) : Node T :=
  mkNode (transport_ s) (pendingInterestTable_ s) (registeredPrefixTable_ s) (ndndId_ s)
    (lastPendingInterestId_ s) (lastRegisteredPrefixId_ s) now.

(** ** Outcomes, interactions and the monad of member functions *)

Inductive Exn :=
| TransportError
| DecodeError
| BadFunctionCall
| AppError (code : nat).

(** How a call ends.  [Undefined] is undefined behaviour (an index outside a
    vector): no handler catches it. *)
Inductive Outcome (A : Type) :=
| Returned (a : A)
| Raised (e : Exn)
| Undefined.
Arguments Returned {A}.
Arguments Raised {A}.
Arguments Undefined {A}.

(** A call of a closure of the application, with its arguments. *)
Inductive AppCall :=
| CallOnData (h : Handler) (interest : Interest) (data : Data)
| CallOnTimeout (h : Handler) (interest : Interest)
| CallOnInterest (h : Handler) (prefix : Name) (interest : Interest) (registeredPrefixId : Z).

(** What the node does to the outside world. *)
Inductive Event :=
| EvConnect
| EvSend (wire : Block)
| EvCall (c : AppCall)
| EvTimerArmed (delay : Milliseconds).

Record Run (T A : Type) := mkRun {
  outcome : Outcome A;
  final : Node T;
  events : list Event
}.
Arguments mkRun {T A}.
Arguments outcome {T A}.
Arguments final {T A}.
Arguments events {T A}.

Definition M (T A : Type) := Node T -> Run T A.

Definition ret {T A} (a : A) : M T A := fun s => mkRun (Returned a) s [].

Definition throw {T A} (e : Exn) : M T A := fun s => mkRun (Raised e) s [].

Definition undefined {T A} : M T A := fun s => mkRun Undefined s [].

Definition bind {T A B} (m : M T A) (f : A -> M T B) : M T B :=
  fun s =>
    match m s with
    | mkRun (Returned a) s' evs =>
        match f a s' with
        | mkRun o s'' evs' => mkRun o s'' (evs ++ evs')
        end
    | mkRun (Raised e) s' evs => mkRun (Raised e) s' evs
    | mkRun Undefined s' evs => mkRun Undefined s' evs
    end.

(** [try { m } catch (...) { }] *)
Definition try_catch_all {T} (m : M T unit) : M T unit :=
  fun s =>
    match m s with
    | mkRun (Raised _) s' evs => mkRun (Returned tt) s' evs
    | r => r
    end.

Definition gets {T A} (f : Node T -> A) : M T A := fun s => mkRun (Returned (f s)) s [].
Definition modify {T} (f : Node T -> Node T) : M T unit := fun s => mkRun (Returned tt) (f s) [].
Definition emit {T} (e : Event) : M T unit := fun s => mkRun (Returned tt) s [e].

Declare Scope node_scope.
Delimit Scope node_scope with node.
Notation "x <- c1 ;; c2" := (bind c1 (fun x => c2))
  (at level 100, c1 at next level, right associativity) : node_scope.
Notation "c1 ;; c2" := (bind c1 (fun _ => c2))
  (at level 100, right associativity) : node_scope.
Local Open Scope node_scope.

(** ** The transport *)

(** The [Transport] interface.  [connect] and [send] act on the transport
    alone and may raise: [Some e] is the exception, [None] a normal return.
    Received blocks are delivered by the event loop, never from inside
    [connect] or [send]. *)
Class Transport (T : Type) := {
  Transport_isConnected : T -> bool;
  Transport_connect : T -> option Exn * T;
  Transport_send : Block -> T -> option Exn * T;
  Transport_close : T -> T
}.

Definition outcome_of (r : option Exn) : Outcome unit :=
  match r with
  | None => Returned tt
  | Some e => Raised e
  end.

(** What a call of a closure of the application does: it leaves the node in
    some state, and returns ([None]) or raises ([Some e]). *)
Definition App (T : Type) := AppCall -> Node T -> option Exn * Node T.

Section NodeOperations.

Context {T : Type} `{!Transport T} `{!Codec}.
Variable app : App T.

Definition transport_isConnected : M T bool :=
  gets (fun s => Transport_isConnected (transport_ s)).

Definition transport_connect : M T unit :=
  fun s =>
    let r := Transport_connect (transport_ s) in
    mkRun (outcome_of r.1) (set_transport r.2 s) [EvConnect].

Definition transport_send (wire : Block) : M T unit :=
  fun s =>
    let r := Transport_send wire (transport_ s) in
    mkRun (outcome_of r.1) (set_transport r.2 s) [EvSend wire].

Definition ndn_getNowMilliseconds : M T MillisecondsSince1970 :=
  gets nowMilliseconds.

(** Calling a closure of the application. *)
Definition invoke (c : AppCall) : M T unit :=
  fun s =>
    let r := app c s in
    mkRun (outcome_of r.1) r.2 [EvCall c].

(** Calling a [std::function]: an empty one raises [std::bad_function_call]. *)
Definition call_function (f : option Handler) (c : Handler -> AppCall) : M T unit :=
  match f with
  | Some h => invoke (c h)
  | None => throw BadFunctionCall
  end.

(** *** Ids *)

Definition uint64_modulus : Z := 2 ^ 64.

(** Modelled from the spec: [PendingInterest::getNextPendingInterestId] is
    defined in node.hpp, which is not part of the sources.  The
    specification has ids come from a counter seeded at 0
    ([lastPendingInterestId_], a [uint64_t] in node.cpp) and increase: the
    counter is incremented, as a [uint64_t], and its new value is the id. *)
Definition getNextPendingInterestId : M T Z :=
  last <- gets lastPendingInterestId_;;
  let id := (last + 1) mod uint64_modulus in
  modify (set_lastPendingInterestId id);;
  ret id.

(** *** [Node::PendingInterest::PendingInterest] *)

Definition PendingInterest_new (pendingInterestId : Z) (interest : Interest)
    (onData : OnData) (onTimeout : OnTimeout) : M T PendingInterest :=
  if 0 <=? Interest_interestLifetime interest then
    now <- ndn_getNowMilliseconds;;
    ret (mkPendingInterest pendingInterestId interest onData onTimeout
           (int64_add now (Interest_interestLifetime interest)))
  else
    now <- ndn_getNowMilliseconds;;
    ret (mkPendingInterest pendingInterestId interest onData onTimeout
           (int64_add now 4000)).

(** *** [Node::PendingInterest::callTimeout] *)

Definition callTimeout (pi : PendingInterest) : M T unit :=
  match onTimeout_ pi with
  | Some h => try_catch_all (invoke (CallOnTimeout h (interest_ pi)))
  | None => ret tt
  end.

(** *** [Node::expressInterest] *)

Definition expressInterest (interest : Interest) (onData : OnData) (onTimeout : OnTimeout)
    : M T Z :=
  connected <- transport_isConnected;;
  (if negb connected then transport_connect else ret tt);;
  pendingInterestId <- getNextPendingInterestId;;
  pi <- PendingInterest_new pendingInterestId interest onData onTimeout;;
  modify (fun s => set_pendingInterestTable (pendingInterestTable_ s ++ [pi]) s);;
  transport_send (Interest_wireEncode interest);;
  ret pendingInterestId.

(** *** [Node::removePendingInterest] *)

(** The loop [for (int i = size - 1; i >= 0; --i)], with [k = i + 1]
    iterations left.  (Table sizes are taken to fit an [int].) *)
Fixpoint removePendingInterest_loop (pendingInterestId : Z) (k : nat) : M T unit :=
  match k with
  | O => ret tt
  | S i =>
      pit <- gets pendingInterestTable_;;
      match pit !! i with
      | None => undefined
      | Some e =>
          (if bool_decide (pendingInterestId_ e = pendingInterestId)
           then modify (set_pendingInterestTable (delete i pit))
           else ret tt);;
          removePendingInterest_loop pendingInterestId i
      end
  end.

Definition removePendingInterest (pendingInterestId : Z) : M T unit :=
  size <- gets (fun s => length (pendingInterestTable_ s));;
  removePendingInterest_loop pendingInterestId size.

(** *** [Node::registerPrefixHelper] *)

Definition component0 : Component := list_byte_of_string "ndnx".
Definition component2 : Component := list_byte_of_string "selfreg".

(** The self-registration Interest built for [prefix] and [flags] when the
    hub's id is [ndndId]. *)
Definition selfRegistrationInterest (ndndId : Buffer) (prefix : Name) (flags : ForwardingFlags)
    : Interest :=
  let forwardingEntry := mkForwardingEntry "selfreg" prefix (-1) flags (-1) in
  let content := ForwardingEntry_wireEncode forwardingEntry in
  let data := Data_setContent content Data_empty in
  let signature := SignatureSha256WithRsa (Block_make Tlv_SignatureValue []) in
  let data := Data_setSignature signature data in
  let interestName : Name := [] in
  let interestName := Name_append interestName component0 in
  let interestName := Name_append interestName ndndId in
  let interestName := Name_append interestName component2 in
  let interestName := Name_append interestName (Data_wireEncode data) in
  let interest := Interest_of_name interestName in
  Interest_setScope 1 interest.

Definition registerPrefixHelper (registeredPrefixId : Z) (prefix : Name)
    (onInterest : OnInterest) (onRegisterFailed : option Handler) (flags : ForwardingFlags)
    : M T unit :=
  ndndId <- gets ndndId_;;
  let interest := selfRegistrationInterest ndndId prefix flags in
  modify (fun s => set_registeredPrefixTable
                     (registeredPrefixTable_ s
                        ++ [mkRegisteredPrefix registeredPrefixId prefix onInterest]) s);;
  transport_send (Interest_wireEncode interest).

(** *** [Node::checkPitExpire] *)

(** The backward loop, with [k = i + 1] iterations left and the last reading
    of the clock. *)
Fixpoint checkPitExpire_loop (k : nat) (nowMilliseconds : MillisecondsSince1970) : M T unit :=
  match k with
  | O => ret tt
  | S i =>
      pit <- gets pendingInterestTable_;;
      match pit !! i with
      | None => undefined
      | Some pendingInterest =>
          if isTimedOut pendingInterest nowMilliseconds then
            modify (set_pendingInterestTable (delete i pit));;
            callTimeout pendingInterest;;
            nowMilliseconds <- ndn_getNowMilliseconds;;
            checkPitExpire_loop i nowMilliseconds
          else checkPitExpire_loop i nowMilliseconds
      end
  end.

Definition checkPitExpire : M T unit :=
  nowMilliseconds <- ndn_getNowMilliseconds;;
  size <- gets (fun s => length (pendingInterestTable_ s));;
  checkPitExpire_loop size nowMilliseconds;;
  emit (EvTimerArmed 100).

(** *** The two lookups *)

(** [Node::getEntryIndexForExpressedInterest]: the iterator is the index, and
    the entry it points to; [None] is [end()].  [i] is the index of the head
    of [rest]. *)
Fixpoint getEntryIndexForExpressedInterest_from (name : Name) (i : nat)
    (rest : list PendingInterest) : option (nat * PendingInterest) :=
  match rest with
  | [] => None
  | e :: rest' =>
      if Interest_matchesName (interest_ e) name then Some (i, e)
      else getEntryIndexForExpressedInterest_from name (S i) rest'
  end.

Definition getEntryIndexForExpressedInterest (name : Name) (pit : list PendingInterest)
    : option (nat * PendingInterest) :=
  getEntryIndexForExpressedInterest_from name 0 pit.

(** [Node::getEntryForRegisteredPrefix]: [longestPrefix] is [None] for
    [end()]. *)
Fixpoint getEntryForRegisteredPrefix_from (name : Name) (i : nat)
    (rest : list RegisteredPrefix) (longestPrefix : option (nat * RegisteredPrefix))
    : option (nat * RegisteredPrefix) :=
  match rest with
  | [] => longestPrefix
  | e :: rest' =>
      let longestPrefix' :=
        match longestPrefix with
        | None => Some (i, e)
        | Some (_, l) =>
            if (Name_size (prefix_ l) <? Name_size (prefix_ e))%nat then Some (i, e)
            else longestPrefix
        end in
      getEntryForRegisteredPrefix_from name (S i) rest' longestPrefix'
  end.

Definition getEntryForRegisteredPrefix (name : Name) (rpt : list RegisteredPrefix)
    : option (nat * RegisteredPrefix) :=
  getEntryForRegisteredPrefix_from name 0 rpt None.

(** *** [Node::onReceiveElement] *)

Definition decode {A} (d : option A) : M T A :=
  match d with
  | Some a => ret a
  | None => throw DecodeError
  end.

Definition onReceiveElement (block : Block) : M T unit :=
  if (Block_type block =? Tlv_Interest)%N then
    interest <- decode (Interest_wireDecode block);;
    rpt <- gets registeredPrefixTable_;;
    match getEntryForRegisteredPrefix (Interest_name interest) rpt with
    | Some (_, entry) =>
        call_function (onInterest_ entry)
          (fun h => CallOnInterest h (prefix_ entry) interest (registeredPrefixId_ entry))
    | None => ret tt
    end
  else if (Block_type block =? Tlv_Data)%N then
    data <- decode (Data_wireDecode block);;
    pit <- gets pendingInterestTable_;;
    match getEntryIndexForExpressedInterest (Data_name data) pit with
    | Some (i, entry) =>
        let onData := onData_ entry in
        let interest := interest_ entry in
        modify (set_pendingInterestTable (delete i pit));;
        call_function onData (fun h => CallOnData h interest data)
    | None => ret tt
    end
  else ret tt.

End NodeOperations.

(** ** Runs of the public operations *)

(** The operations of the specification's PIT properties: expressing an
    Interest, cancelling one, and a tick of the periodic timer, which fires
    when the clock reads [now]. *)
Inductive Op :=
| OpExpressInterest (interest : Interest) (onData : OnData) (onTimeout : OnTimeout)
| OpRemovePendingInterest (pendingInterestId : Z)
| OpTimerTick (now : MillisecondsSince1970).

Section Runs.

Context {T : Type} `{!Transport T} `{!Codec}.
Variable app : App T.

(** One operation; the value is the id handed back to the caller, if any. *)
Definition perform (o : Op) : M T (option Z) :=
  match o with
  | OpExpressInterest interest onData onTimeout =>
      id <- expressInterest interest onData onTimeout;;
      ret (Some id)
  | OpRemovePendingInterest id =>
      removePendingInterest id;;
      ret None
  | OpTimerTick now =>
      modify (set_nowMilliseconds now);;
      checkPitExpire app;;
      ret None
  end.

(** The ids that [expressInterest] returns along a sequence of operations.  A
    call that raises returns no id, and the caller carries on. *)
Fixpoint returnedIds (ops : list Op) (s : Node T) : list Z :=
  match ops with
  | [] => []
  | o :: ops' =>
      let r := perform o s in
      match outcome r with
      | Returned (Some id) => id :: returnedIds ops' (final r)
      | Returned None => returnedIds ops' (final r)
      | Raised _ => returnedIds ops' (final r)
      | Undefined => []
      end
  end.

(** The number of [expressInterest] calls of a sequence. *)
Fixpoint expressCount (ops : list Op) : nat :=
  match ops with
  | [] => O
  | OpExpressInterest _ _ _ :: ops' => S (expressCount ops')
  | _ :: ops' => expressCount ops'
  end.

End Runs.

(** [Node::Node], with the static counters at their initial values. *)
Definition Node_new {T} (transport : T) (now : MillisecondsSince1970) : Node T :=
  mkNode transport [] [] [] 0 0 now.

(** ** What the specification asks of the prefix lookup *)

(** The specification's [longestMatch]: among the entries whose prefix is a
    prefix of the Interest's name, the one with the most components, the
    earliest inserted on ties; none if no prefix matches. *)
Fixpoint spec_longestMatch_from (name : Name) (i : nat) (rest : list RegisteredPrefix)
    (best : option (nat * RegisteredPrefix)) : option (nat * RegisteredPrefix) :=
  match rest with
  | [] => best
  | e :: rest' =>
      let best' :=
        if ndn_Name_match (prefix_ e) name then
          match best with
          | None => Some (i, e)
          | Some (_, l) =>
              if (Name_size (prefix_ l) <? Name_size (prefix_ e))%nat then Some (i, e)
              else best
          end
        else best in
      spec_longestMatch_from name (S i) rest' best'
  end.

Definition spec_longestMatch (name : Name) (rpt : list RegisteredPrefix)
    : option (nat * RegisteredPrefix) :=
  spec_longestMatch_from name 0 rpt None.

(** The timeout calls among the interactions of a run, in order. *)
Definition timeoutCalls (evs : list Event) : list (Handler * Interest) :=
  omap (fun ev => match ev with
                  | EvCall (CallOnTimeout h i) => Some (h, i)
                  | _ => None
                  end) evs.

(** The timeout calls that a list of PIT entries gives rise to, in the order
    of the list: one for each entry that holds a timeout closure. *)
Definition timeoutsOf (entries : list PendingInterest) : list (Handler * Interest) :=
  omap (fun e => match onTimeout_ e with
                 | Some h => Some (h, interest_ e)
                 | None => None
                 end) entries.

(** ** A test transport and a test codec *)

(** A transport that records what it is given and can be told to fail. *)
Record TestTransport := mkTestTransport {
  tt_connected : bool;
  tt_connectFails : bool;
  tt_sendFails : bool;
  tt_sent : list Block
}.

#[global] Instance TestTransport_ops : Transport TestTransport := {
  Transport_isConnected t := tt_connected t;
  Transport_connect t :=
    if tt_connectFails t then (Some TransportError, t)
    else (None, mkTestTransport true (tt_connectFails t) (tt_sendFails t) (tt_sent t));
  Transport_send wire t :=
    if tt_sendFails t then (Some TransportError, t)
    else (None, mkTestTransport (tt_connected t) (tt_connectFails t) (tt_sendFails t)
                  (tt_sent t ++ [wire]));
  Transport_close t :=
    mkTestTransport false (tt_connectFails t) (tt_sendFails t) (tt_sent t)
}.

Definition goodTransport : TestTransport := mkTestTransport false false false [].
Definition sendFailsTransport : TestTransport := mkTestTransport false false true [].
Definition connectFailsTransport : TestTransport := mkTestTransport false true false [].

(** A codec for the concrete runs: a block is its type byte followed by a
    name written as text, every component introduced by a slash. *)
Definition slash : byte := x2f.

Fixpoint text_of_name (n : Name) : list byte :=
  match n with
  | [] => []
  | c :: n' => slash :: c ++ text_of_name n'
  end.

(** The components of a text, [cur] being the component under way (reversed)
    once a slash has been read. *)
Fixpoint name_of_text_from (text : list byte) (cur : option Component) : Name :=
  match text with
  | [] => match cur with Some c => [rev c] | None => [] end
  | b :: text' =>
      if bool_decide (b = slash) then
        match cur with
        | Some c => rev c :: name_of_text_from text' (Some [])
        | None => name_of_text_from text' (Some [])
        end
      else
        match cur with
        | Some c => name_of_text_from text' (Some (b :: c))
        | None => name_of_text_from text' (Some [b])
        end
  end.

Definition name_of_text (text : list byte) : Name := name_of_text_from text None.

#[global] Instance TestCodec : Codec := {
  Tlv_Interest := 5%N;
  Tlv_Data := 6%N;
  Tlv_SignatureValue := 23%N;
  Block_type b := match b with x :: _ => Byte.to_N x | [] => 0%N end;
  Block_make t buf :=
    match Byte.of_N t with Some x => x :: buf | None => buf end;
  Interest_wireEncode i := x05 :: text_of_name (Interest_name i);
  Interest_wireDecode b :=
    match b with
    | _ :: text => Some (Interest_of_name (name_of_text text))
    | [] => None
    end;
  Data_wireEncode d := x06 :: text_of_name (Data_name d);
  Data_wireDecode b :=
    match b with
    | _ :: text => Some (mkData (name_of_text text) [] NoSignature)
    | [] => None
    end;
  ForwardingEntry_wireEncode fe := text_of_name (fe_prefix fe)
}.

(** A name from its text, as in ["/a/b"]. *)
Definition uri (text : string) : Name := name_of_text (list_byte_of_string text).

(** Applications for the concrete runs: one whose closures do nothing, one
    whose closures all raise, and one whose closures cancel every pending
    Interest. *)
Definition quietApp {T} : App T := fun _ s => (None, s).
Definition raisingApp {T} : App T := fun _ s => (Some (AppError 1), s).
Definition cancellingApp {T} : App T := fun _ s => (None, set_pendingInterestTable [] s).

(** The entries that a cancellation of [id] keeps. *)
Definition keptBy (id : Z) (pit : list PendingInterest) : list PendingInterest :=
  filter (fun e => pendingInterestId_ e <> id) pit.

(** ** Concrete nodes and packets *)

(** Two pending Interests, [/a] with deadline 100 and [/b] with deadline 200,
    inserted in this order, on a node whose clock reads 500. *)
Definition pendingA : PendingInterest :=
  mkPendingInterest 1 (Interest_of_name_lifetime (uri "/a") 100) (Some 11%nat) (Some 12%nat) 100.
Definition pendingB : PendingInterest :=
  mkPendingInterest 2 (Interest_of_name_lifetime (uri "/b") 200) (Some 21%nat) (Some 22%nat) 200.
Definition nodeTwoExpired : Node TestTransport :=
  mkNode goodTransport [pendingA; pendingB] [] [] 2 0 500.

(** The same two Interests, and a third, [/a/b], inserted between them. *)
Definition pendingAB : PendingInterest :=
  mkPendingInterest 3 (Interest_of_name_lifetime (uri "/a/b") 4000) (Some 31%nat) None 4000.
Definition nodeThreePending : Node TestTransport :=
  mkNode goodTransport [pendingB; pendingAB; pendingA] [] [] 3 0 0.

(** A Data packet named [/a/b/c], and its block. *)
Definition dataABC : Data := mkData (uri "/a/b/c") [] NoSignature.
Definition blockDataABC : Block := Data_wireEncode dataABC.

(** The prefixes [/a] then [/a/b] registered, as in the specification's
    longest-prefix scenario, and the Interest [/a/x]. *)
Definition registeredA : RegisteredPrefix := mkRegisteredPrefix 1 (uri "/a") (Some 1%nat).
Definition registeredAB : RegisteredPrefix := mkRegisteredPrefix 2 (uri "/a/b") (Some 2%nat).
Definition nodeTwoPrefixes : Node TestTransport :=
  mkNode goodTransport [] [registeredA; registeredAB] [] 0 2 0.
Definition interestAX : Interest := Interest_of_name (uri "/a/x").
Definition blockInterestAX : Block := Interest_wireEncode interestAX.

(** An Interest for [/a] with a lifetime of one second, and one without
    lifetime. *)
Definition interestA1000 : Interest := Interest_of_name_lifetime (uri "/a") 1000.
Definition interestANoLifetime : Interest := Interest_of_name (uri "/a").

(** A run of five operations. *)
Definition fiveOps : list Op :=
  [ OpExpressInterest interestA1000 None None;
    OpExpressInterest interestANoLifetime None None;
    OpRemovePendingInterest 1;
    OpTimerTick 5000;
    OpExpressInterest interestA1000 None None ].

(** ** Abbreviations for the statements *)

Section Abbreviations.

Context {T : Type} `{!Transport T} `{!Codec}.

(** The first step of [expressInterest], connecting if need be: the exception
    it raises if any, the node it leaves, and the interaction. *)
Definition connectResult (s : Node T) : option Exn :=
  if Transport_isConnected (transport_ s) then None
  else (Transport_connect (transport_ s)).1.

Definition afterConnect (s : Node T) : Node T :=
  if Transport_isConnected (transport_ s) then s
  else set_transport (Transport_connect (transport_ s)).2 s.

Definition connectEvents (s : Node T) : list Event :=
  if Transport_isConnected (transport_ s) then [] else [EvConnect].

(** The id that the next [expressInterest] draws in [s]. *)
Definition nextPendingInterestId (s : Node T) : Z :=
  (lastPendingInterestId_ s + 1) mod uint64_modulus.

(** The deadline of an entry created at time [now] for a given lifetime. *)
Definition deadlineAt (now : MillisecondsSince1970) (lifetime : Milliseconds)
    : MillisecondsSince1970 :=
  if 0 <=? lifetime then int64_add now lifetime else int64_add now 4000.

(** The PIT entry that [expressInterest] creates in [s], and the node once it
    is in the table. *)
Definition entryFor (s : Node T) (interest : Interest) (onData : OnData)
    (onTimeout : OnTimeout) : PendingInterest :=
  mkPendingInterest (nextPendingInterestId s) interest onData onTimeout
    (deadlineAt (nowMilliseconds s) (Interest_interestLifetime interest)).

Definition withEntry (s : Node T) (pi : PendingInterest) : Node T :=
  set_pendingInterestTable (pendingInterestTable_ s ++ [pi])
    (set_lastPendingInterestId (pendingInterestId_ pi) (afterConnect s)).

End Abbreviations.

(** ** Assumptions on the application, and what a timeout call leaves *)

Section Frames.

Context {T : Type}.

(** The closures of the application neither touch the PIT (they do not
    re-enter [expressInterest] or [removePendingInterest]) nor let the clock
    advance. *)
Definition keepsPitAndClock (app : App T) : Prop :=
  forall c s,
    pendingInterestTable_ (app c s).2 = pendingInterestTable_ s /\
    nowMilliseconds (app c s).2 = nowMilliseconds s.

(** The closures of the application draw no pending-interest id. *)
Definition keepsPendingInterestIds (app : App T) : Prop :=
  forall c s, lastPendingInterestId_ (app c s).2 = lastPendingInterestId_ s.

(** The node after the timeout call of an entry, and the interaction. *)
Definition afterTimeout (app : App T) (pi : PendingInterest) (s : Node T) : Node T :=
  match onTimeout_ pi with
  | Some h => (app (CallOnTimeout h (interest_ pi)) s).2
  | None => s
  end.

Definition timeoutEvents (pi : PendingInterest) : list Event :=
  match onTimeout_ pi with
  | Some h => [EvCall (CallOnTimeout h (interest_ pi))]
  | None => []
  end.

End Frames.

(** ** Runs in which the counter of pending-interest ids does not wrap *)

Section NoWrap.

Context {T : Type} `{!Transport T} `{!Codec}.
Variable app : App T.

(** The node at the end of a run of operations; undefined behaviour ends the
    run. *)
Fixpoint runOps (ops : list Op) (s : Node T) : Node T :=
  match ops with
  | [] => s
  | o :: ops' =>
      let r := perform app o s in
      match outcome r with
      | Undefined => final r
      | _ => runOps ops' (final r)
      end
  end.

(** The counter does not wrap along a run.  When a call of [expressInterest]
    draws an id (it does once it is connected), the counter is below
    [2^64 - 1].  The closures that a timer tick calls may draw ids
    themselves, re-entering [expressInterest] on this node or on another one
    of the process, the counter being a static: no such draw wraps, that is,
    the tick leaves the counter, which nothing else writes, at least where
    it was. *)
Fixpoint counterNeverWraps (ops : list Op) (s : Node T) : Prop :=
  match ops with
  | [] => True
  | o :: ops' =>
      let r := perform app o s in
      match o with
      | OpExpressInterest _ _ _ =>
          connectResult s = None -> lastPendingInterestId_ s + 1 < uint64_modulus
      | OpRemovePendingInterest _ => True
      | OpTimerTick _ => lastPendingInterestId_ s <= lastPendingInterestId_ (final r)
      end /\
      match outcome r with
      | Undefined => True
      | _ => counterNeverWraps ops' (final r)
      end
  end.

End NoWrap.

(** ** The entries a sweep takes and leaves *)

(** The entries whose deadline is at most [now], and those whose deadline is
    later, in the order of the table. *)
Definition expiredAt (now : MillisecondsSince1970) (pit : list PendingInterest)
    : list PendingInterest :=
  filter (fun e => timeoutTimeMilliseconds_ e <= now) pit.

Definition pendingAt (now : MillisecondsSince1970) (pit : list PendingInterest)
    : list PendingInterest :=
  filter (fun e => now < timeoutTimeMilliseconds_ e) pit.

(** The interactions of the timeout calls of a list of entries, in the order
    of the list. *)
Definition timeoutEventsOf (entries : list PendingInterest) : list Event :=
  flat_map timeoutEvents entries.

(** ** The invariant of the prefix scan *)

(** The RPT scan from index [k], given the best entry so far, which is
    before [k], at least as long as all the entries before [k], and longer
    than those before itself: the result has the same properties over the
    whole table. *)
Definition longestSoFar (rpt : list RegisteredPrefix) (k : nat)
    (best : option (nat * RegisteredPrefix)) : Prop :=
  match best with
  | None => k = O
  | Some (i, l) =>
      (i < k)%nat /\ rpt !! i = Some l /\
      (forall j e, (j < k)%nat -> rpt !! j = Some e ->
         (Name_size (prefix_ e) <= Name_size (prefix_ l))%nat) /\
      (forall j e, (j < i)%nat -> rpt !! j = Some e ->
         (Name_size (prefix_ e) < Name_size (prefix_ l))%nat)
  end.

(** What the scan returns: nothing for an empty table, and otherwise an entry
    of the table that is at least as long as every entry and longer than
    every earlier one. *)
Definition longestOverall (rpt : list RegisteredPrefix)
    (found : option (nat * RegisteredPrefix)) : Prop :=
  match found with
  | None => rpt = []
  | Some (i, l) =>
      rpt !! i = Some l /\
      (forall j e, rpt !! j = Some e ->
         (Name_size (prefix_ e) <= Name_size (prefix_ l))%nat) /\
      (forall j e, (j < i)%nat -> rpt !! j = Some e ->
         (Name_size (prefix_ e) < Name_size (prefix_ l))%nat)
  end.

(** The same for the specification's lookup, over the entries whose prefix
    is a prefix of the name. *)
Definition longestMatchingSoFar (name : Name) (rpt : list RegisteredPrefix) (k : nat)
    (best : option (nat * RegisteredPrefix)) : Prop :=
  match best with
  | None =>
      forall j e, (j < k)%nat -> rpt !! j = Some e -> ndn_Name_match (prefix_ e) name = false
  | Some (i, l) =>
      (i < k)%nat /\ rpt !! i = Some l /\ ndn_Name_match (prefix_ l) name = true /\
      (forall j e, (j < k)%nat -> rpt !! j = Some e -> ndn_Name_match (prefix_ e) name = true ->
         (Name_size (prefix_ e) <= Name_size (prefix_ l))%nat) /\
      (forall j e, (j < i)%nat -> rpt !! j = Some e -> ndn_Name_match (prefix_ e) name = true ->
         (Name_size (prefix_ e) < Name_size (prefix_ l))%nat)
  end.

Definition longestMatching (name : Name) (rpt : list RegisteredPrefix)
    (found : option (nat * RegisteredPrefix)) : Prop :=
  match found with
  | None => Forall (fun e => ndn_Name_match (prefix_ e) name = false) rpt
  | Some (i, l) =>
      rpt !! i = Some l /\ ndn_Name_match (prefix_ l) name = true /\
      (forall j e, rpt !! j = Some e -> ndn_Name_match (prefix_ e) name = true ->
         (Name_size (prefix_ e) <= Name_size (prefix_ l))%nat) /\
      (forall j e, (j < i)%nat -> rpt !! j = Some e -> ndn_Name_match (prefix_ e) name = true ->
         (Name_size (prefix_ e) < Name_size (prefix_ l))%nat)
  end.

(** ** The rest of node.cpp: registering and removing prefixes *)

(** [Name(const char* uri)]: the URI parser is not part of the sources and
    is left abstract. *)
Class NameUri := {
  Name_of_uri : string -> Name
}.

Definition set_lastRegisteredPrefixId {T} (id : Z) (s : Node T) : Node T :=
  mkNode (transport_ s) (pendingInterestTable_ s) (registeredPrefixTable_ s) (ndndId_ s)
    (lastPendingInterestId_ s) id (nowMilliseconds s).

(** The closure that [registerPrefix] hands to [expressInterest] when the id
    of the hub is not known yet: an [NdndIdFetcher] built from the arguments
    of the registration.  The class is defined in util/ndnd-id-fetcher.hpp,
    which is not part of the sources: the closure is a handle, like the
    closures of the application, and what it does when called belongs to
    [app]. *)
Definition FetcherOf := Z -> Name -> OnInterest -> option Handler -> ForwardingFlags -> Handler.

Section Prefixes.

Context {T : Type} `{!Transport T} `{!Codec} `{!NameUri}.
Variable NdndIdFetcher : FetcherOf.

(** The member [ndndIdFetcherInterest_], as [Node::Node] initialises it. *)
Definition ndndIdFetcherInterest_ : Interest :=
  Interest_of_name_lifetime (Name_of_uri "/%C1.M.S.localhost/%C1.M.SRV/ndnd/KEY") 4000.

(** Modelled from the spec: [RegisteredPrefix::getNextRegisteredPrefixId] is
    defined in node.hpp, which is not part of the sources.  The
    specification gives registered prefixes the counter discipline of
    pending Interests, on a counter of their own ([lastRegisteredPrefixId_],
    a [uint64_t] in node.cpp): the counter is incremented and its new value
    is the id. *)
Definition getNextRegisteredPrefixId : M T Z :=
  last <- gets lastRegisteredPrefixId_;;
  let id := (last + 1) mod uint64_modulus in
  modify (set_lastRegisteredPrefixId id);;
  ret id.

(** *** [Node::registerPrefix] *)

Definition registerPrefix (prefix : Name) (onInterest : OnInterest)
    (onRegisterFailed : option Handler) (flags : ForwardingFlags) : M T Z :=
  registeredPrefixId <- getNextRegisteredPrefixId;;
  ndndId <- gets ndndId_;;
  (if (length ndndId =? 0)%nat then
     let fetcher :=
       Some (NdndIdFetcher registeredPrefixId prefix onInterest onRegisterFailed flags) in
     expressInterest ndndIdFetcherInterest_ fetcher fetcher;;
     ret tt
   else
     registerPrefixHelper registeredPrefixId prefix onInterest onRegisterFailed flags);;
  ret registeredPrefixId.

(** *** [Node::removeRegisteredPrefix] *)

Fixpoint removeRegisteredPrefix_loop (registeredPrefixId : Z) (k : nat) : M T unit :=
  match k with
  | O => ret tt
  | S i =>
      rpt <- gets registeredPrefixTable_;;
      match rpt !! i with
      | None => undefined
      | Some e =>
          (if bool_decide (registeredPrefixId_ e = registeredPrefixId)
           then modify (set_registeredPrefixTable (delete i rpt))
           else ret tt);;
          removeRegisteredPrefix_loop registeredPrefixId i
      end
  end.

Definition removeRegisteredPrefix (registeredPrefixId : Z) : M T unit :=
  size <- gets (fun s => length (registeredPrefixTable_ s));;
  removeRegisteredPrefix_loop registeredPrefixId size.

End Prefixes.

(** The registered prefixes that a removal of [id] keeps. *)
Definition keptPrefixes (id : Z) (rpt : list RegisteredPrefix) : list RegisteredPrefix :=
  filter (fun e => registeredPrefixId_ e <> id) rpt.

(** ** Runs of all the operations *)

(** What happens to a node: a call of one of its public member functions, a
    block delivered by the transport, or a tick of the timer when the clock
    reads [now]. *)
Inductive Action :=
| ActExpressInterest (interest : Interest) (onData : OnData) (onTimeout : OnTimeout)
| ActRemovePendingInterest (pendingInterestId : Z)
| ActRegisterPrefix (prefix : Name) (onInterest : OnInterest)
    (onRegisterFailed : option Handler) (flags : ForwardingFlags)
| ActRemoveRegisteredPrefix (registeredPrefixId : Z)
| ActReceive (block : Block)
| ActTimerTick (now : MillisecondsSince1970).

Section Actions.

Context {T : Type} `{!Transport T} `{!Codec} `{!NameUri}.
Variable app : App T.
Variable NdndIdFetcher : FetcherOf.

Definition act (a : Action) : M T unit :=
  match a with
  | ActExpressInterest interest onData onTimeout =>
      expressInterest interest onData onTimeout;;
      ret tt
  | ActRemovePendingInterest id => removePendingInterest id
  | ActRegisterPrefix prefix onInterest onRegisterFailed flags =>
      registerPrefix NdndIdFetcher prefix onInterest onRegisterFailed flags;;
      ret tt
  | ActRemoveRegisteredPrefix id => removeRegisteredPrefix id
  | ActReceive block => onReceiveElement app block
  | ActTimerTick now =>
      modify (set_nowMilliseconds now);;
      checkPitExpire app
  end.

(** The node after a sequence of actions; an exception is left to the
    caller, which carries on, and undefined behaviour ends the run. *)
Fixpoint runActions (acts : list Action) (s : Node T) : Node T :=
  match acts with
  | [] => s
  | a :: acts' =>
      let r := act a s in
      match outcome r with
      | Undefined => final r
      | _ => runActions acts' (final r)
      end
  end.



(** The number of actions of a sequence that may draw a pending-interest
    id. *)
Fixpoint drawCount (acts : list Action) : nat :=
  match acts with
  | [] => O
  | ActExpressInterest _ _ _ :: acts' => S (drawCount acts')
  | ActRegisterPrefix _ _ _ _ :: acts' => S (drawCount acts')
  | _ :: acts' => drawCount acts'
  end.

End Actions.

(** The closures of the application leave the PIT and the counter of
    pending-interest ids alone (the clock may advance). *)
Definition keepsPitAndIds {T} (app : App T) : Prop :=
  forall c s,
    pendingInterestTable_ (app c s).2 = pendingInterestTable_ s /\
    lastPendingInterestId_ (app c s).2 = lastPendingInterestId_ s.

(** The closures of the application may add entries at the end of the PIT
    (they may express Interests) but remove none, and do not let the clock
    advance. *)
Definition onlyAppendsToPit {T} (app : App T) : Prop :=
  forall c s,
    (exists added, pendingInterestTable_ (app c s).2 = pendingInterestTable_ s ++ added) /\
    nowMilliseconds (app c s).2 = nowMilliseconds s.



(** The ids of a PIT increase along the table and are at most the counter. *)
Definition idsIncreasing (pit : list PendingInterest) : Prop :=
  StronglySorted (fun e1 e2 => pendingInterestId_ e1 < pendingInterestId_ e2) pit.

Definition pitWellFormed {T} (s : Node T) : Prop :=
  idsIncreasing (pendingInterestTable_ s) /\
  Forall (fun e => pendingInterestId_ e <= lastPendingInterestId_ s) (pendingInterestTable_ s) /\
  0 <= lastPendingInterestId_ s.

(** A test URI parser, a test fetcher, and an application whose closures
    express one more Interest. *)
#[global] Instance TestNameUri : NameUri := {
  Name_of_uri text := uri text
}.

Definition testFetcher : FetcherOf := fun id _ _ _ _ => (1000 + Z.to_nat id)%nat.

Definition expressingApp : App TestTransport :=
  fun _ s =>
    let r := expressInterest interestA1000 None None s in
    (None, final r).

(** A run in which the closure of the first Interest times out and, with
    [expressingApp], expresses an Interest of its own between the two calls
    of the caller. *)
Definition reentrantOps : list Op :=
  [ OpExpressInterest interestA1000 None (Some 2%nat);
    OpTimerTick 5000;
    OpExpressInterest interestANoLifetime None None ].

(** A node that knows the id of its hub, a codec that refuses a block made
    of its type byte alone, and runs of four and of six actions. *)
Definition nodeKnownHub : Node TestTransport :=
  mkNode goodTransport [] [registeredA] [x68; x75; x62] 0 1 0.

Definition pickyCodec : Codec := {|
  Tlv_Interest := 5%N;
  Tlv_Data := 6%N;
  Tlv_SignatureValue := 23%N;
  Block_type b := match b with x :: _ => Byte.to_N x | [] => 0%N end;
  Block_make t buf := match Byte.of_N t with Some x => x :: buf | None => buf end;
  Interest_wireEncode i := x05 :: text_of_name (Interest_name i);
  Interest_wireDecode b :=
    match b with
    | _ :: b' :: text => Some (Interest_of_name (name_of_text (b' :: text)))
    | _ => None
    end;
  Data_wireEncode d := x06 :: text_of_name (Data_name d);
  Data_wireDecode b :=
    match b with
    | _ :: b' :: text => Some (mkData (name_of_text (b' :: text)) [] NoSignature)
    | _ => None
    end;
  ForwardingEntry_wireEncode fe := text_of_name (fe_prefix fe)
|}.


Definition sixActions : list Action :=
  [ ActExpressInterest (Interest_of_name_lifetime (uri "/a/b") 1000) (Some 1%nat) (Some 2%nat);
    ActRegisterPrefix (uri "/p") (Some 3%nat) (Some 4%nat) 0;
    ActReceive blockDataABC;
    ActExpressInterest interestANoLifetime None None;
    ActTimerTick 5000;
    ActRemovePendingInterest 2 ].

(** * Properties *)

(** ** Names *)

(** [ndn_Name_match] is the prefix test on component lists. *)
Lemma ndn_Name_match_prefix (self name : Name) :
  ndn_Name_match self name = true <-> exists rest, name = self ++ rest.
Proof.
  revert name. induction self as [|c self IH]; intros name; cbn.
  - split; [eauto|done].
  - destruct name as [|d name].
    + split; [done|]. by intros [rest Hrest].
    + rewrite andb_true_iff, bool_decide_eq_true, IH. split.
      * intros [-> [rest ->]]. eauto.
      * intros [rest [= -> ->]]. eauto.
Qed.

Lemma ndn_Name_match_refl (name : Name) : ndn_Name_match name name = true.
Proof. apply ndn_Name_match_prefix. exists []. by rewrite app_nil_r. Qed.

Lemma ndn_Name_match_trans (a b c : Name) :
  ndn_Name_match a b = true -> ndn_Name_match b c = true -> ndn_Name_match a c = true.
Proof.
  rewrite !ndn_Name_match_prefix. intros [r1 ->] [r2 ->].
  exists (r1 ++ r2). by rewrite app_assoc.
Qed.

(** ** Setters *)

Section Setters.

Context {T : Type}.
Implicit Type s : Node T.

Lemma set_pendingInterestTable_twice pit pit' s :
  set_pendingInterestTable pit (set_pendingInterestTable pit' s) = set_pendingInterestTable pit s.
Proof. reflexivity. Qed.

Lemma set_pendingInterestTable_same s :
  set_pendingInterestTable (pendingInterestTable_ s) s = s.
Proof. by destruct s. Qed.

Lemma pendingInterestTable_set pit s :
  pendingInterestTable_ (set_pendingInterestTable pit s) = pit.
Proof. reflexivity. Qed.

End Setters.

(** ** Lists split at an index *)

Section Middle.

Context {A : Type}.
Implicit Types (l : list A) (e : A).

Lemma lookup_middle l i e :
  l !! i = Some e -> exists l1 l2, l = l1 ++ e :: l2 /\ length l1 = i.
Proof.
  intros He. exists (take i l), (drop (S i) l). split.
  - by rewrite take_drop_middle.
  - rewrite length_take. apply lookup_lt_Some in He. lia.
Qed.

Lemma take_S_middle l1 l2 e : take (S (length l1)) (l1 ++ e :: l2) = l1 ++ [e].
Proof.
  rewrite cons_middle, app_assoc.
  rewrite take_app_length' by (rewrite length_app; cbn; lia). done.
Qed.

Lemma drop_S_middle l1 l2 e : drop (S (length l1)) (l1 ++ e :: l2) = l2.
Proof.
  rewrite cons_middle, app_assoc.
  rewrite drop_app_length' by (rewrite length_app; cbn; lia). done.
Qed.

End Middle.

(** Once an entry is erased from a table whose ids are pairwise distinct, no
    entry of the table carries its id. *)
Lemma delete_no_such_id (pit : list PendingInterest) i entry :
  NoDup (pendingInterestId_ <$> pit) ->
  pit !! i = Some entry ->
  Forall (fun e => pendingInterestId_ e <> pendingInterestId_ entry) (delete i pit).
Proof.
  intros Hnd He. destruct (lookup_middle _ _ _ He) as (l1 & l2 & -> & <-).
  rewrite delete_middle. rewrite fmap_app, fmap_cons in Hnd.
  apply list.NoDup_app in Hnd as (_ & Hl1 & Hnd). apply list.NoDup_cons in Hnd as [Hl2 _].
  apply Forall_app. split; apply list.Forall_forall; intros e Hin Heq.
  - apply (Hl1 (pendingInterestId_ e)); [by apply list_elem_of_fmap_2|].
    rewrite Heq. left.
  - apply Hl2. rewrite <- Heq. by apply list_elem_of_fmap_2.
Qed.

(** ** Cancellation: [removePendingInterest] *)

Section RemovePendingInterest.

Context {T : Type} `{!Transport T} `{!Codec}.
Implicit Type s : Node T.

(** The backward loop, started below the size of the table, filters the part
    of the table it walks and neither raises nor leaves the table. *)
Lemma removePendingInterest_loop_filter id k :
  forall s,
    (k <= length (pendingInterestTable_ s))%nat ->
    removePendingInterest_loop id k s =
      mkRun (Returned tt)
        (set_pendingInterestTable
           (keptBy id (take k (pendingInterestTable_ s)) ++ drop k (pendingInterestTable_ s)) s)
        [].
Proof.
  induction k as [|i IH]; intros s Hk.
  - destruct s; reflexivity.
  - cbn [removePendingInterest_loop]. unfold bind at 1. cbn.
    destruct (lookup_lt_is_Some_2 (pendingInterestTable_ s) i) as [e He]; [lia|].
    rewrite He.
    destruct (lookup_middle _ _ _ He) as (l1 & l2 & Hl & <-).
    unfold bind at 1. case_bool_decide as Hid; cbn.
    + rewrite IH; cbn; rewrite Hl, delete_middle.
      2:{ rewrite Hl, length_app in Hk. cbn in Hk. rewrite length_app. lia. }
      rewrite set_pendingInterestTable_twice. do 2 f_equal.
      rewrite take_S_middle, take_app_length, drop_app_length, drop_S_middle.
      unfold keptBy. rewrite list.filter_app, filter_cons_False by (intros Hne; by apply Hne).
      by rewrite filter_nil, app_nil_r.
    + rewrite IH by lia. rewrite Hl. do 2 f_equal.
      rewrite take_S_middle, take_app_length, drop_app_length, drop_S_middle.
      unfold keptBy. rewrite list.filter_app, filter_cons_True by done.
      by rewrite filter_nil, <- app_assoc.
Qed.

(** A cancellation is total: it returns, talks to nobody, and leaves the
    table filtered. *)
Lemma removePendingInterest_run id s :
  removePendingInterest id s =
    mkRun (Returned tt) (set_pendingInterestTable (keptBy id (pendingInterestTable_ s)) s) [].
Proof.
  unfold removePendingInterest, bind, gets. cbn.
  rewrite removePendingInterest_loop_filter by done.
  by rewrite firstn_all, drop_all, app_nil_r.
Qed.

Lemma keptBy_Forall id pit :
  Forall (fun e => pendingInterestId_ e <> id) (keptBy id pit).
Proof. unfold keptBy. apply list.Forall_forall. intros e He. by apply list_elem_of_filter in He as [? _]. Qed.

Lemma keptBy_id id pit :
  Forall (fun e => pendingInterestId_ e <> id) pit -> keptBy id pit = pit.
Proof.
  unfold keptBy. induction 1 as [|e pit He _ IH]; [done|].
  by rewrite filter_cons_True, IH.
Qed.

(** C8. For every id and every PIT, [removePendingInterest id] returns
    normally (it cannot fail, whether or not an entry matches), keeps exactly
    the entries whose id differs, in their order, so that no entry with this
    id is left; a second call with the same id changes nothing; and when no
    entry has the id (never inserted, or already removed by a Data match or a
    timeout) the node is left as it was. *)
Theorem removePendingInterest_removes_all_and_is_idempotent (id : Z) (s : Node T) :
  let r := removePendingInterest id s in
  outcome r = Returned tt /\
  events r = [] /\
  final r = set_pendingInterestTable (keptBy id (pendingInterestTable_ s)) s /\
  Forall (fun e => pendingInterestId_ e <> id) (pendingInterestTable_ (final r)) /\
  removePendingInterest id (final r) = mkRun (Returned tt) (final r) [] /\
  (Forall (fun e => pendingInterestId_ e <> id) (pendingInterestTable_ s) -> final r = s).
Proof.
  cbv zeta. rewrite !removePendingInterest_run. cbn [outcome events final].
  rewrite pendingInterestTable_set, set_pendingInterestTable_twice.
  split_and!; try done.
  - apply keptBy_Forall.
  - by rewrite keptBy_id by apply keptBy_Forall.
  - intros Hno. rewrite keptBy_id by done. apply set_pendingInterestTable_same.
Qed.

(** Cancelling an Interest whose entry has been erased (by a Data match or a
    timeout) from a table of pairwise distinct ids changes nothing. *)
Lemma removePendingInterest_after_erase i entry s :
  NoDup (pendingInterestId_ <$> pendingInterestTable_ s) ->
  pendingInterestTable_ s !! i = Some entry ->
  let s' := set_pendingInterestTable (delete i (pendingInterestTable_ s)) s in
  removePendingInterest (pendingInterestId_ entry) s' = mkRun (Returned tt) s' [].
Proof.
  intros Hnd He. cbv zeta. rewrite removePendingInterest_run.
  rewrite pendingInterestTable_set, set_pendingInterestTable_twice.
  rewrite keptBy_id; [done|]. by apply delete_no_such_id.
Qed.

End RemovePendingInterest.

(** ** Sums of times *)



(** ** Expressing an Interest *)

Section ExpressInterest.

Context {T : Type} `{!Transport T} `{!Codec}.
Implicit Type s : Node T.

Lemma afterConnect_nowMilliseconds s : nowMilliseconds (afterConnect s) = nowMilliseconds s.
Proof. unfold afterConnect. by destruct (Transport_isConnected _). Qed.

Lemma afterConnect_pendingInterestTable s :
  pendingInterestTable_ (afterConnect s) = pendingInterestTable_ s.
Proof. unfold afterConnect. by destruct (Transport_isConnected _). Qed.

Lemma afterConnect_lastPendingInterestId s :
  lastPendingInterestId_ (afterConnect s) = lastPendingInterestId_ s.
Proof. unfold afterConnect. by destruct (Transport_isConnected _). Qed.

(** The constructor reads the clock once and touches nothing. *)
Lemma PendingInterest_new_run id interest onData onTimeout s :
  PendingInterest_new id interest onData onTimeout s =
    mkRun (Returned (mkPendingInterest id interest onData onTimeout
                       (deadlineAt (nowMilliseconds s) (Interest_interestLifetime interest))))
      s [].
Proof.
  unfold PendingInterest_new, deadlineAt.
  by destruct (0 <=? Interest_interestLifetime interest).
Qed.

(** [expressInterest], step by step. *)
Lemma expressInterest_run interest onData onTimeout s :
  expressInterest interest onData onTimeout s =
    match connectResult s with
    | Some e => mkRun (Raised e) (afterConnect s) (connectEvents s)
    | None =>
        let pi := entryFor s interest onData onTimeout in
        let s' := withEntry s pi in
        let sent := Transport_send (Interest_wireEncode interest) (transport_ s') in
        mkRun (match sent.1 with
               | None => Returned (pendingInterestId_ pi)
               | Some e => Raised e
               end)
          (set_transport sent.2 s')
          (connectEvents s ++ [EvSend (Interest_wireEncode interest)])
    end.
Proof.
  unfold expressInterest, withEntry, entryFor, nextPendingInterestId,
    connectResult, afterConnect, connectEvents.
  unfold bind, transport_isConnected, transport_connect, getNextPendingInterestId,
    gets, modify, ret, transport_send, bind.
  destruct (Transport_isConnected (transport_ s)) eqn:Hc; cbn [negb].
  - rewrite PendingInterest_new_run. cbn.
    destruct (Transport_send _ _) as [[e|] t]; reflexivity.
  - destruct (Transport_connect (transport_ s)) as [[e|] t]; cbn; [done|].
    rewrite PendingInterest_new_run. cbn.
    destruct (Transport_send _ _) as [[e|] t']; reflexivity.
Qed.


(** C3, as the code has it. When [expressInterest] surfaces an exception
    [e], either [connect] raised it, and then the PIT and the id counter are
    as before the call; or [send] raised it, and then the entry is already in
    the table: the PIT is the former one followed by the new entry, and the
    counter has advanced to the entry's id. *)
Theorem expressInterest_error_after_insertion
    (interest : Interest) (onData : OnData) (onTimeout : OnTimeout) (s : Node T) (e : Exn) :
  let r := expressInterest interest onData onTimeout s in
  outcome r = Raised e ->
  (connectResult s = Some e /\
   pendingInterestTable_ (final r) = pendingInterestTable_ s /\
   lastPendingInterestId_ (final r) = lastPendingInterestId_ s)
  \/
  (connectResult s = None /\
   (Transport_send (Interest_wireEncode interest) (transport_ (afterConnect s))).1 = Some e /\
   pendingInterestTable_ (final r) =
     pendingInterestTable_ s ++ [entryFor s interest onData onTimeout] /\
   lastPendingInterestId_ (final r) = nextPendingInterestId s).
Proof.
  cbv zeta. rewrite expressInterest_run.
  destruct (connectResult s) as [e'|] eqn:Hc; cbn.
  - intros [= ->]. left.
    by rewrite afterConnect_pendingInterestTable, afterConnect_lastPendingInterestId.
  - destruct (Transport_send _ _) as [[e'|] t] eqn:Hs; cbn; [|done].
    intros [= ->]. by right.
Qed.

(** What a call of [expressInterest] does to the id counter. *)
Lemma expressInterest_lastPendingInterestId interest onData onTimeout s :
  lastPendingInterestId_ (final (expressInterest interest onData onTimeout s)) =
    match connectResult s with
    | Some _ => lastPendingInterestId_ s
    | None => nextPendingInterestId s
    end.
Proof.
  rewrite expressInterest_run. destruct (connectResult s); cbn; [|done].
  apply afterConnect_lastPendingInterestId.
Qed.

(** The id it returns, when it returns, is the one drawn from the counter. *)
Lemma expressInterest_returned interest onData onTimeout s id :
  outcome (expressInterest interest onData onTimeout s) = Returned id ->
  id = nextPendingInterestId s /\ connectResult s = None.
Proof.
  rewrite expressInterest_run. destruct (connectResult s); cbn; [done|].
  destruct (Transport_send _ _).1; [done|]. by intros [= <-].
Qed.

Lemma expressInterest_defined interest onData onTimeout s :
  outcome (expressInterest interest onData onTimeout s) <> Undefined.
Proof.
  rewrite expressInterest_run. destruct (connectResult s); cbn; [done|].
  by destruct (Transport_send _ _).1.
Qed.

End ExpressInterest.

(** ** The timer: [callTimeout] and [checkPitExpire] *)

Section Timer.

Context {T : Type} `{!Transport T} `{!Codec}.
Variable app : App T.
Implicit Type s : Node T.

(** Whatever the closure does, [callTimeout] returns: an exception is caught
    and dropped, and the node is as the closure left it. *)
Lemma callTimeout_run pi s :
  callTimeout app pi s = mkRun (Returned tt) (afterTimeout app pi s) (timeoutEvents pi).
Proof.
  unfold callTimeout, afterTimeout, timeoutEvents.
  destruct (onTimeout_ pi) as [h|]; [|done].
  unfold try_catch_all, invoke. by destruct (app _ s) as [[e|] s'].
Qed.

(** One turn of the backward loop. *)
Lemma checkPitExpire_loop_S i now s e :
  pendingInterestTable_ s !! i = Some e ->
  checkPitExpire_loop app (S i) now s =
    if isTimedOut e now then
      let s' := afterTimeout app e
                  (set_pendingInterestTable (delete i (pendingInterestTable_ s)) s) in
      match checkPitExpire_loop app i (nowMilliseconds s') s' with
      | mkRun o s'' evs => mkRun o s'' (timeoutEvents e ++ evs)
      end
    else checkPitExpire_loop app i now s.
Proof.
  intros He. cbn [checkPitExpire_loop]. unfold bind at 1. cbn [gets]. rewrite He.
  destruct (isTimedOut e now).
  - unfold bind, modify, ndn_getNowMilliseconds, gets. rewrite callTimeout_run. cbn.
    by destruct (checkPitExpire_loop _ _ _ _).
  - by destruct (checkPitExpire_loop _ _ _ _).
Qed.

Lemma checkPitExpire_loop_out_of_range i now s :
  pendingInterestTable_ s !! i = None ->
  checkPitExpire_loop app (S i) now s = mkRun Undefined s [].
Proof. intros He. cbn [checkPitExpire_loop]. unfold bind at 1. cbn [gets]. by rewrite He. Qed.

(** The loop never lets an exception out. *)
Lemma checkPitExpire_loop_not_raised k :
  forall now s e, outcome (checkPitExpire_loop app k now s) <> Raised e.
Proof.
  induction k as [|i IH]; intros now s e; [done|].
  destruct (pendingInterestTable_ s !! i) as [pi|] eqn:Hpi.
  - rewrite (checkPitExpire_loop_S _ _ _ _ Hpi).
    destruct (isTimedOut pi now); [|apply IH]. cbv zeta.
    specialize (IH (nowMilliseconds (afterTimeout app pi
      (set_pendingInterestTable (delete i (pendingInterestTable_ s)) s)))
      (afterTimeout app pi (set_pendingInterestTable (delete i (pendingInterestTable_ s)) s)) e).
    by destruct (checkPitExpire_loop _ _ _ _).
  - by rewrite checkPitExpire_loop_out_of_range.
Qed.

(** What the closures and the erasures of the sweep preserve, the sweep
    preserves. *)
Lemma checkPitExpire_loop_invariant (P : Node T -> Prop) :
  (forall pit s, P s -> P (set_pendingInterestTable pit s)) ->
  (forall c s, P s -> P (app c s).2) ->
  forall k now s, P s -> P (final (checkPitExpire_loop app k now s)).
Proof.
  intros Hset Happ. induction k as [|i IH]; intros now s Hs; [done|].
  destruct (pendingInterestTable_ s !! i) as [pi|] eqn:Hpi.
  - rewrite (checkPitExpire_loop_S _ _ _ _ Hpi).
    destruct (isTimedOut pi now); [|by apply IH]. cbv zeta.
    set (s' := afterTimeout app pi _).
    assert (P s') as Hs'.
    { unfold s', afterTimeout. destruct (onTimeout_ pi); [apply Happ|]; by apply Hset. }
    specialize (IH (nowMilliseconds s') s' Hs').
    by destruct (checkPitExpire_loop _ _ _ _).
  - by rewrite checkPitExpire_loop_out_of_range.
Qed.

Lemma checkPitExpire_invariant (P : Node T -> Prop) :
  (forall pit s, P s -> P (set_pendingInterestTable pit s)) ->
  (forall c s, P s -> P (app c s).2) ->
  forall s, P s -> P (final (checkPitExpire app s)).
Proof.
  intros Hset Happ s Hs. unfold checkPitExpire, bind, ndn_getNowMilliseconds, gets, emit.
  pose proof (checkPitExpire_loop_invariant P Hset Happ
                (length (pendingInterestTable_ s)) (nowMilliseconds s) s Hs) as Hl.
  by destruct (checkPitExpire_loop _ _ _ _) as [[| |] ? ?].
Qed.

(** *** The sweep when the closures leave the PIT and the clock alone *)

Lemma isTimedOut_true e now : isTimedOut e now = true <-> timeoutTimeMilliseconds_ e <= now.
Proof. unfold isTimedOut. apply Z.leb_le. Qed.

Lemma isTimedOut_false e now : isTimedOut e now = false <-> now < timeoutTimeMilliseconds_ e.
Proof. unfold isTimedOut. apply Z.leb_gt. Qed.

Lemma pendingAt_snoc now l e :
  pendingAt now (l ++ [e]) =
    pendingAt now l ++ (if isTimedOut e now then [] else [e]).
Proof.
  unfold pendingAt. rewrite list.filter_app. f_equal.
  destruct (isTimedOut e now) eqn:He.
  - apply isTimedOut_true in He. rewrite filter_cons_False by lia. done.
  - apply isTimedOut_false in He. rewrite filter_cons_True by lia. done.
Qed.

Lemma expiredAt_snoc now l e :
  expiredAt now (l ++ [e]) =
    expiredAt now l ++ (if isTimedOut e now then [e] else []).
Proof.
  unfold expiredAt. rewrite list.filter_app. f_equal.
  destruct (isTimedOut e now) eqn:He.
  - apply isTimedOut_true in He. rewrite filter_cons_True by lia. done.
  - apply isTimedOut_false in He. rewrite filter_cons_False by lia. done.
Qed.

Lemma afterTimeout_keeps pi s :
  keepsPitAndClock app ->
  pendingInterestTable_ (afterTimeout app pi s) = pendingInterestTable_ s /\
  nowMilliseconds (afterTimeout app pi s) = nowMilliseconds s.
Proof. intros Hq. unfold afterTimeout. destruct (onTimeout_ pi); [apply Hq|done]. Qed.

(** The backward loop from index [k - 1] down: it returns, erases the
    expired entries among the first [k], and calls their timeouts from the
    last one to the first. *)
Lemma checkPitExpire_loop_sweep k :
  keepsPitAndClock app ->
  forall s,
    (k <= length (pendingInterestTable_ s))%nat ->
    let now := nowMilliseconds s in
    let pit := pendingInterestTable_ s in
    let r := checkPitExpire_loop app k now s in
    outcome r = Returned tt /\
    pendingInterestTable_ (final r) = pendingAt now (take k pit) ++ drop k pit /\
    nowMilliseconds (final r) = now /\
    events r = timeoutEventsOf (rev (expiredAt now (take k pit))).
Proof.
  intros Hq. induction k as [|i IH]; intros s Hk; cbv zeta.
  - cbn. by rewrite drop_0.
  - destruct (lookup_lt_is_Some_2 (pendingInterestTable_ s) i) as [e He]; [lia|].
    rewrite (checkPitExpire_loop_S _ _ _ _ He).
    destruct (lookup_middle _ _ _ He) as (l1 & l2 & Hl & <-).
    rewrite Hl, take_S_middle, drop_S_middle, pendingAt_snoc, expiredAt_snoc.
    destruct (isTimedOut e (nowMilliseconds s)) eqn:Hexp; cbv zeta.
    + rewrite delete_middle.
      set (s' := afterTimeout app e _).
      destruct (afterTimeout_keeps e (set_pendingInterestTable (l1 ++ l2) s) Hq)
        as [Hpit Hnow].
      fold s' in Hpit, Hnow. cbn in Hpit, Hnow.
      specialize (IH s'). rewrite Hpit, Hnow in IH. cbv zeta in IH.
      rewrite take_app_length, drop_app_length in IH.
      destruct IH as (Ho & Hp & Hn & Hev); [rewrite length_app; lia|].
      rewrite Hnow, app_nil_r.
      destruct (checkPitExpire_loop _ _ _ _) as [o s'' evs]. cbn in *.
      split_and!; try done.
      rewrite Hev, rev_app_distr. done.
    + specialize (IH s). rewrite Hl in IH. cbv zeta in IH.
      rewrite take_app_length, drop_app_length in IH.
      destruct IH as (Ho & Hp & Hn & Hev); [rewrite length_app; lia|].
      rewrite app_nil_r. split_and!; try done.
      by rewrite Hp, <- app_assoc.
Qed.

Lemma timeoutCalls_timeoutEventsOf l evs :
  timeoutCalls (timeoutEventsOf l ++ evs) = timeoutsOf l ++ timeoutCalls evs.
Proof.
  unfold timeoutCalls, timeoutsOf, timeoutEventsOf.
  induction l as [|e l IH]; [done|].
  cbn [flat_map omap list_omap]. unfold timeoutEvents at 1.
  destruct (onTimeout_ e); cbn; by rewrite IH.
Qed.

(** C2, as the code has it. In one run of [checkPitExpire] at time [now],
    with closures that neither touch the PIT nor let the clock advance: the
    run returns; the PIT is left with exactly the entries whose deadline is
    later than [now], in their order, so that every entry whose deadline is
    at most [now] is removed and none other; the timeout closure of every
    removed entry that has one is called, and these calls come in the reverse
    of the PIT insertion order (the sweep walks the table from its last entry
    to its first); the timer is then armed again for 100 ms. *)
Theorem checkPitExpire_sweeps_backwards (s : Node T) :
  keepsPitAndClock app ->
  let now := nowMilliseconds s in
  let pit := pendingInterestTable_ s in
  let r := checkPitExpire app s in
  outcome r = Returned tt /\
  pendingInterestTable_ (final r) = pendingAt now pit /\
  events r = timeoutEventsOf (rev (expiredAt now pit)) ++ [EvTimerArmed 100] /\
  timeoutCalls (events r) = timeoutsOf (rev (expiredAt now pit)).
Proof.
  intros Hq. cbv zeta.
  destruct (checkPitExpire_loop_sweep (length (pendingInterestTable_ s)) Hq s)
    as (Ho & Hp & Hn & Hev); [done|].
  rewrite firstn_all, drop_all, app_nil_r in Hp. rewrite firstn_all in Hev.
  unfold checkPitExpire, bind, ndn_getNowMilliseconds, gets, emit.
  destruct (checkPitExpire_loop _ _ _ _) as [o s' evs].
  cbn [outcome events final] in *. subst o evs.
  cbn [outcome events final List.app]. split_and!; try done.
  by rewrite timeoutCalls_timeoutEventsOf, app_nil_r.
Qed.

(** The timer part of C5: whatever the closures do, raise included,
    [checkPitExpire] lets no exception out. *)
Lemma checkPitExpire_not_raised s e : outcome (checkPitExpire app s) <> Raised e.
Proof.
  unfold checkPitExpire, bind, ndn_getNowMilliseconds, gets, emit.
  pose proof (checkPitExpire_loop_not_raised (length (pendingInterestTable_ s))
                (nowMilliseconds s) s) as Hl.
  destruct (checkPitExpire_loop _ _ _ _) as [[| |] ? ?]; cbn in *; done.
Qed.

End Timer.

(** ** The two lookups *)

Section Lookups.

Implicit Types (pit : list PendingInterest) (rpt : list RegisteredPrefix) (name : Name).

(** The PIT lookup returns the first entry, from the front, whose Interest
    matches the name. *)
Lemma getEntryIndexForExpressedInterest_from_Some name rest :
  forall k i e,
    getEntryIndexForExpressedInterest_from name k rest = Some (i, e) ->
    exists j, i = (k + j)%nat /\ rest !! j = Some e /\
      Interest_matchesName (interest_ e) name = true /\
      forall j' e', (j' < j)%nat -> rest !! j' = Some e' ->
        Interest_matchesName (interest_ e') name = false.
Proof.
  induction rest as [|x rest IH]; intros k i e; cbn; [done|].
  destruct (Interest_matchesName (interest_ x) name) eqn:Hx.
  - intros [= <- <-]. exists O. split_and!; [lia|done|done|intros; lia].
  - intros Hr. destruct (IH _ _ _ Hr) as (j & -> & Hj & Hm & Hfirst).
    exists (S j). split_and!; [lia|done|done|].
    intros [|j'] e' Hlt; cbn.
    + by intros [= <-].
    + apply Hfirst. lia.
Qed.

Lemma getEntryIndexForExpressedInterest_from_None name rest :
  forall k,
    getEntryIndexForExpressedInterest_from name k rest = None ->
    Forall (fun e => Interest_matchesName (interest_ e) name = false) rest.
Proof.
  induction rest as [|x rest IH]; intros k; cbn; [by constructor|].
  destruct (Interest_matchesName (interest_ x) name) eqn:Hx; [done|].
  intros Hr. constructor; eauto.
Qed.

(** The RPT lookup never consults the name. *)
Lemma getEntryForRegisteredPrefix_from_name name name' rest :
  forall k best,
    getEntryForRegisteredPrefix_from name k rest best =
      getEntryForRegisteredPrefix_from name' k rest best.
Proof. induction rest as [|x rest IH]; intros k best; cbn; [done|]. apply IH. Qed.

Lemma getEntryForRegisteredPrefix_from_longest name rpt rest :
  forall k best,
    drop k rpt = rest ->
    longestSoFar rpt k best ->
    longestOverall rpt (getEntryForRegisteredPrefix_from name k rest best).
Proof.
  induction rest as [|x rest IH]; intros k best Hdrop Hbest;
    cbn [getEntryForRegisteredPrefix_from].
  - apply drop_nil_inv in Hdrop.
    destruct best as [[i l]|]; cbn in *.
    + destruct Hbest as (Hi & Hl & Hmax & Hfirst). split_and!; [done| |done].
      intros j e Hj. apply (Hmax j e); [|done]. apply lookup_lt_Some in Hj. lia.
    + subst k. destruct rpt; [done|cbn in Hdrop; lia].
  - assert (rpt !! k = Some x) as Hk.
    { rewrite <- (Nat.add_0_r k), <- lookup_drop, Hdrop. done. }
    apply IH.
    { replace (S k) with (k + 1)%nat by lia. by rewrite <- drop_drop, Hdrop. }
    destruct best as [[i l]|]; cbn [longestSoFar] in *.
    + destruct Hbest as (Hi & Hl & Hmax & Hfirst).
      destruct (Nat.ltb_spec (Name_size (prefix_ l)) (Name_size (prefix_ x))) as [Hlt|Hge];
        cbn.
      * split_and!; [lia|done| |].
        -- intros j e Hj He. destruct (decide (j = k)) as [->|Hne].
           ++ rewrite Hk in He. injection He as <-. lia.
           ++ assert (j < k)%nat as Hjk by lia. specialize (Hmax j e Hjk He). lia.
        -- intros j e Hj He. specialize (Hmax j e Hj He). lia.
      * split_and!; [lia|done| |done].
        intros j e Hj He. destruct (decide (j = k)) as [->|Hne].
        -- rewrite Hk in He. injection He as <-. lia.
        -- apply (Hmax j e); [lia|done].
    + subst k. split_and!; [lia|done| |intros; lia].
      intros j e Hj He. assert (j = O) as -> by lia.
      rewrite Hk in He. injection He as <-. lia.
Qed.

Lemma getEntryForRegisteredPrefix_longest name rpt :
  longestOverall rpt (getEntryForRegisteredPrefix name rpt).
Proof. by apply getEntryForRegisteredPrefix_from_longest. Qed.

(** The lookup of the specification does what the specification says. *)
Lemma spec_longestMatch_from_longest name rpt rest :
  forall k best,
    drop k rpt = rest ->
    longestMatchingSoFar name rpt k best ->
    longestMatching name rpt (spec_longestMatch_from name k rest best).
Proof.
  induction rest as [|x rest IH]; intros k best Hdrop Hbest;
    cbn [spec_longestMatch_from].
  - apply drop_nil_inv in Hdrop.
    destruct best as [[i l]|]; cbn [longestMatchingSoFar longestMatching] in *.
    + destruct Hbest as (Hi & Hl & Hm & Hmax & Hfirst). split_and!; [done|done| |done].
      intros j e Hj. apply (Hmax j e); [|done]. apply lookup_lt_Some in Hj. lia.
    + apply list.Forall_forall. intros e He.
      apply list_elem_of_lookup in He as [j Hj]. apply (Hbest j e); [|done].
      apply lookup_lt_Some in Hj. lia.
  - assert (rpt !! k = Some x) as Hk.
    { rewrite <- (Nat.add_0_r k), <- lookup_drop, Hdrop. done. }
    apply IH.
    { replace (S k) with (k + 1)%nat by lia. by rewrite <- drop_drop, Hdrop. }
    destruct (ndn_Name_match (prefix_ x) name) eqn:Hx.
    + destruct best as [[i l]|]; cbn [longestMatchingSoFar] in *.
      * destruct Hbest as (Hi & Hl & Hm & Hmax & Hfirst).
        destruct (Nat.ltb_spec (Name_size (prefix_ l)) (Name_size (prefix_ x)))
          as [Hlt|Hge]; cbn [longestMatchingSoFar].
        -- split_and!; [lia|done|done| |].
           ++ intros j e Hj He Hmatch. destruct (decide (j = k)) as [->|Hne].
              ** rewrite Hk in He. injection He as <-. lia.
              ** assert (j < k)%nat as Hjk by lia. specialize (Hmax j e Hjk He Hmatch). lia.
           ++ intros j e Hj He Hmatch. specialize (Hmax j e Hj He Hmatch). lia.
        -- split_and!; [lia|done|done| |done].
           intros j e Hj He Hmatch. destruct (decide (j = k)) as [->|Hne].
           ++ rewrite Hk in He. injection He as <-. lia.
           ++ apply (Hmax j e); [lia|done|done].
      * split_and!; [lia|done|done| |].
        -- intros j e Hj He Hmatch. destruct (decide (j = k)) as [->|Hne].
           ++ rewrite Hk in He. injection He as <-. lia.
           ++ assert (j < k)%nat as Hjk by lia. specialize (Hbest j e Hjk He). congruence.
        -- intros j e Hj He Hmatch. specialize (Hbest j e Hj He). congruence.
    + destruct best as [[i l]|]; cbn [longestMatchingSoFar] in *.
      * destruct Hbest as (Hi & Hl & Hm & Hmax & Hfirst).
        split_and!; [lia|done|done| |done].
        intros j e Hj He Hmatch. destruct (decide (j = k)) as [->|Hne].
        -- rewrite Hk in He. injection He as <-. congruence.
        -- apply (Hmax j e); [lia|done|done].
      * intros j e Hj He. destruct (decide (j = k)) as [->|Hne].
        -- rewrite Hk in He. by injection He as <-.
        -- apply (Hbest j e); [lia|done].
Qed.

Lemma spec_longestMatch_longest name rpt :
  longestMatching name rpt (spec_longestMatch name rpt).
Proof. apply spec_longestMatch_from_longest; [done|]. cbn. intros; lia. Qed.

(** On a table all of whose prefixes are prefixes of the name, the lookup of
    the code and the lookup of the specification agree. *)
Lemma getEntryForRegisteredPrefix_from_all_match name rest :
  Forall (fun e => ndn_Name_match (prefix_ e) name = true) rest ->
  forall k best,
    getEntryForRegisteredPrefix_from name k rest best = spec_longestMatch_from name k rest best.
Proof.
  induction 1 as [|x rest Hx _ IH]; intros k best; [done|].
  cbn [getEntryForRegisteredPrefix_from spec_longestMatch_from]. rewrite Hx. apply IH.
Qed.

End Lookups.

(** ** The receive dispatcher *)

Section Dispatcher.

Context {T : Type} `{!Transport T} `{!Codec}.
Variable app : App T.
Implicit Type s : Node T.

(** A call of a [std::function]: one call of the closure it holds, whose
    outcome is the outcome of the call; or [bad_function_call]. *)
Lemma call_function_run f (c : Handler -> AppCall) s :
  call_function app f c s =
    match f with
    | Some h => mkRun (outcome_of (app (c h) s).1) (app (c h) s).2 [EvCall (c h)]
    | None => mkRun (Raised BadFunctionCall) s []
    end.
Proof. by destruct f. Qed.

Lemma onReceiveElement_interest block interest s :
  Block_type block = Tlv_Interest ->
  Interest_wireDecode block = Some interest ->
  onReceiveElement app block s =
    match getEntryForRegisteredPrefix (Interest_name interest) (registeredPrefixTable_ s) with
    | Some (_, entry) =>
        call_function app (onInterest_ entry)
          (fun h => CallOnInterest h (prefix_ entry) interest (registeredPrefixId_ entry)) s
    | None => mkRun (Returned tt) s []
    end.
Proof.
  intros Ht Hd. unfold onReceiveElement. rewrite Ht, N.eqb_refl, Hd.
  unfold bind, decode, ret, gets.
  destruct (getEntryForRegisteredPrefix _ _) as [[i entry]|]; [|done].
  by destruct (call_function _ _ _ _).
Qed.

Lemma onReceiveElement_data block data s :
  Block_type block <> Tlv_Interest ->
  Block_type block = Tlv_Data ->
  Data_wireDecode block = Some data ->
  onReceiveElement app block s =
    match getEntryIndexForExpressedInterest (Data_name data) (pendingInterestTable_ s) with
    | Some (i, entry) =>
        call_function app (onData_ entry) (fun h => CallOnData h (interest_ entry) data)
          (set_pendingInterestTable (delete i (pendingInterestTable_ s)) s)
    | None => mkRun (Returned tt) s []
    end.
Proof.
  intros Hi Ht Hd. unfold onReceiveElement.
  rewrite (proj2 (N.eqb_neq _ _) Hi), Ht, N.eqb_refl, Hd.
  unfold bind, decode, ret, gets, modify.
  destruct (getEntryIndexForExpressedInterest _ _) as [[i entry]|]; [|done].
  by destruct (call_function _ _ _ _).
Qed.

(** C4. For a block of type Data that decodes to [data]: when some PIT entry
    has an Interest whose name is a prefix of the Data's name, the
    dispatcher picks the first such entry in insertion order, erases it, and
    only then calls the entry's [onData] closure, exactly once, with the
    entry's Interest and the Data as they were read before the erasure; the
    closure runs on a node whose PIT is the former one without that entry
    (so, ids being pairwise distinct, without any entry of that id), and the
    dispatcher ends as the closure ends.  When the entry holds no closure the
    call of the empty function raises, the entry being erased all the same.
    When no entry matches, the Data is dropped: the dispatcher returns, the
    node is unchanged, and nothing is called. *)
Theorem onReceiveElement_data_first_match_removed_before_call
    (block : Block) (data : Data) (s : Node T) :
  Block_type block <> Tlv_Interest ->
  Block_type block = Tlv_Data ->
  Data_wireDecode block = Some data ->
  let pit := pendingInterestTable_ s in
  let r := onReceiveElement app block s in
  match getEntryIndexForExpressedInterest (Data_name data) pit with
  | Some (i, entry) =>
      pit !! i = Some entry /\
      ndn_Name_match (Interest_name (interest_ entry)) (Data_name data) = true /\
      (forall j e, (j < i)%nat -> pit !! j = Some e ->
         ndn_Name_match (Interest_name (interest_ e)) (Data_name data) = false) /\
      let s' := set_pendingInterestTable (delete i pit) s in
      (NoDup (pendingInterestId_ <$> pit) ->
       Forall (fun e => pendingInterestId_ e <> pendingInterestId_ entry)
         (pendingInterestTable_ s')) /\
      match onData_ entry with
      | Some h =>
          let c := CallOnData h (interest_ entry) data in
          r = mkRun (outcome_of (app c s').1) (app c s').2 [EvCall c]
      | None => r = mkRun (Raised BadFunctionCall) s' []
      end
  | None =>
      Forall (fun e => ndn_Name_match (Interest_name (interest_ e)) (Data_name data) = false)
        pit /\
      r = mkRun (Returned tt) s []
  end.
Proof.
  intros Hi Ht Hd. cbv zeta. rewrite (onReceiveElement_data _ _ _ Hi Ht Hd).
  destruct (getEntryIndexForExpressedInterest _ _) as [[i entry]|] eqn:Hfind.
  - apply getEntryIndexForExpressedInterest_from_Some in Hfind
      as (j & -> & Hj & Hm & Hfirst).
    cbn [Nat.add]. split_and!; try done.
    + intros Hnd. by apply delete_no_such_id.
    + rewrite call_function_run. by destruct (onData_ entry).
  - split; [|done]. by eapply getEntryIndexForExpressedInterest_from_None.
Qed.

(** C10. When the registered prefix table is not empty, the lookup returns
    an entry whatever the name of the incoming Interest: the entry with the
    greatest number of prefix components of the whole table, the earliest
    inserted among those, found without comparing any prefix with the name;
    and the dispatcher then calls the [onInterest] of that entry, so that
    the Interest is not dropped in silence: either the closure is called, or
    the call of an empty function raises. *)
Theorem onReceiveElement_interest_never_dropped
    (block : Block) (interest : Interest) (s : Node T) :
  registeredPrefixTable_ s <> [] ->
  Block_type block = Tlv_Interest ->
  Interest_wireDecode block = Some interest ->
  let rpt := registeredPrefixTable_ s in
  let r := onReceiveElement app block s in
  exists i entry,
    (forall name, getEntryForRegisteredPrefix name rpt = Some (i, entry)) /\
    rpt !! i = Some entry /\
    (forall j e, rpt !! j = Some e ->
       (Name_size (prefix_ e) <= Name_size (prefix_ entry))%nat) /\
    (forall j e, (j < i)%nat -> rpt !! j = Some e ->
       (Name_size (prefix_ e) < Name_size (prefix_ entry))%nat) /\
    match onInterest_ entry with
    | Some h =>
        let c := CallOnInterest h (prefix_ entry) interest (registeredPrefixId_ entry) in
        r = mkRun (outcome_of (app c s).1) (app c s).2 [EvCall c]
    | None => r = mkRun (Raised BadFunctionCall) s []
    end.
Proof.
  intros Hne Ht Hd. cbv zeta. rewrite (onReceiveElement_interest _ _ _ Ht Hd).
  pose proof (getEntryForRegisteredPrefix_longest (Interest_name interest)
                (registeredPrefixTable_ s)) as Hlong.
  destruct (getEntryForRegisteredPrefix _ _) as [[i entry]|] eqn:Hfind; cbn in Hlong; [|done].
  destruct Hlong as (Hi & Hmax & Hfirst).
  exists i, entry. split_and!; try done.
  - intros name. rewrite <- Hfind. apply getEntryForRegisteredPrefix_from_name.
  - rewrite call_function_run. by destruct (onInterest_ entry).
Qed.

(** Where the exceptions of closures are caught. An exception raised by an
    [onTimeout] closure is caught inside [callTimeout] and dropped:
    [callTimeout] always returns, leaving the node as the closure left it,
    and a run of [checkPitExpire] lets no exception out.  The dispatcher has
    no handler: when [onReceiveElement] calls an [onData] or [onInterest]
    closure, it ends as the closure ends, so an exception raised by the
    closure reaches the caller of [onReceiveElement]; the node is then as the
    closure left it, the matched PIT entry, for a Data, being already
    erased. *)
Lemma callback_exceptions_caught_by_timer_only :
  (forall pi s,
     callTimeout app pi s = mkRun (Returned tt) (afterTimeout app pi s) (timeoutEvents pi)) /\
  (forall s e, outcome (checkPitExpire app s) <> Raised e) /\
  (forall block s c,
     let r := onReceiveElement app block s in
     events r = [EvCall c] ->
     exists s',
       (s' = s \/
        exists i, s' = set_pendingInterestTable (delete i (pendingInterestTable_ s)) s) /\
       outcome r = outcome_of (app c s').1 /\
       final r = (app c s').2 /\
       forall e, (app c s').1 = Some e -> outcome r = Raised e).
Proof.
  split_and!.
  - apply callTimeout_run.
  - apply checkPitExpire_not_raised.
  - intros block s c. cbv zeta. unfold onReceiveElement.
    destruct (Block_type block =? Tlv_Interest)%N.
    + destruct (Interest_wireDecode block) as [interest|]; [|done].
      unfold bind, decode, ret, gets.
      destruct (getEntryForRegisteredPrefix _ _) as [[i entry]|]; [|done].
      rewrite call_function_run. destruct (onInterest_ entry) as [h|]; [|done].
      cbn. intros [= <-]. exists s. split_and!; eauto.
      by intros e ->.
    + destruct (Block_type block =? Tlv_Data)%N; [|done].
      destruct (Data_wireDecode block) as [data|]; [|done].
      unfold bind, decode, ret, gets, modify.
      destruct (getEntryIndexForExpressedInterest _ _) as [[i entry]|]; [|done].
      rewrite call_function_run. destruct (onData_ entry) as [h|]; [|done].
      cbn. intros [= <-]. eexists. split_and!; eauto.
      by intros e ->.
Qed.

End Dispatcher.

(** ** Registration *)

Section Registration.

Context {T : Type} `{!Transport T} `{!Codec}.
Implicit Type s : Node T.

(** C6. The Interest that [registerPrefixHelper] sends has exactly four name
    components, in this order: the bytes of "ndnx", the id of the hub, the
    bytes of "selfreg", and the wire encoding of the Data packet that
    carries the forwarding entry under an empty signature; its scope is 1.
    The entry (prefix, onInterest, id) is appended to the registered prefix
    table first: the send runs on the node that already has it, so the entry
    is in the table whether the send returns or raises. *)
Theorem registerPrefixHelper_selfreg_interest_after_insertion
    (registeredPrefixId : Z) (prefix : Name) (onInterest : OnInterest)
    (onRegisterFailed : option Handler) (flags : ForwardingFlags) (s : Node T) :
  let interest := selfRegistrationInterest (ndndId_ s) prefix flags in
  let data :=
    mkData [] (ForwardingEntry_wireEncode (mkForwardingEntry "selfreg" prefix (-1) flags (-1)))
      (SignatureSha256WithRsa (Block_make Tlv_SignatureValue [])) in
  let entry := mkRegisteredPrefix registeredPrefixId prefix onInterest in
  let s' := set_registeredPrefixTable (registeredPrefixTable_ s ++ [entry]) s in
  let r := registerPrefixHelper registeredPrefixId prefix onInterest onRegisterFailed flags s in
  Interest_name interest =
    [ [x6e; x64; x6e; x78];
      ndndId_ s;
      [x73; x65; x6c; x66; x72; x65; x67];
      Data_wireEncode data ] /\
  Interest_scope interest = 1 /\
  r = transport_send (Interest_wireEncode interest) s' /\
  events r = [EvSend (Interest_wireEncode interest)] /\
  registeredPrefixTable_ (final r) = registeredPrefixTable_ s ++ [entry].
Proof.
  cbv zeta.
  assert (registerPrefixHelper registeredPrefixId prefix onInterest onRegisterFailed flags s =
          transport_send (Interest_wireEncode (selfRegistrationInterest (ndndId_ s) prefix flags))
            (set_registeredPrefixTable
               (registeredPrefixTable_ s
                  ++ [mkRegisteredPrefix registeredPrefixId prefix onInterest]) s)) as Hrun.
  { unfold registerPrefixHelper, bind, gets, modify, transport_send. reflexivity. }
  rewrite Hrun. split_and!; reflexivity.
Qed.

End Registration.

(** ** Pending-interest ids along a run *)

Section Ids.

Context {T : Type} `{!Transport T} `{!Codec}.
Variable app : App T.
Implicit Type s : Node T.

Lemma perform_express interest onData onTimeout s :
  perform app (OpExpressInterest interest onData onTimeout) s =
    match expressInterest interest onData onTimeout s with
    | mkRun (Returned id) s' evs => mkRun (Returned (Some id)) s' (evs ++ [])
    | mkRun (Raised e) s' evs => mkRun (Raised e) s' evs
    | mkRun Undefined s' evs => mkRun Undefined s' evs
    end.
Proof. reflexivity. Qed.

Lemma perform_remove id s :
  perform app (OpRemovePendingInterest id) s =
    mkRun (Returned None)
      (set_pendingInterestTable (keptBy id (pendingInterestTable_ s)) s) [].
Proof. cbn [perform]. unfold bind. by rewrite removePendingInterest_run. Qed.

(** A timer tick returns no id and, with closures that draw no id, leaves
    the counter where it was. *)
Lemma perform_tick now s :
  keepsPendingInterestIds app ->
  let r := perform app (OpTimerTick now) s in
  lastPendingInterestId_ (final r) = lastPendingInterestId_ s /\
  (outcome r = Returned None \/ outcome r = Undefined).
Proof.
  intros Hkeep. cbv zeta. cbn [perform]. unfold bind, modify, ret.
  pose proof (checkPitExpire_invariant app
                (fun s' => lastPendingInterestId_ s' = lastPendingInterestId_ s)) as Hinv.
  specialize (Hinv (fun _ _ H => H)).
  specialize (Hinv (fun c s' H => eq_trans (Hkeep c s') H) (set_nowMilliseconds now s) eq_refl).
  pose proof (checkPitExpire_not_raised app (set_nowMilliseconds now s)) as Hnr.
  destruct (checkPitExpire _ _) as [[[]|e|] s' evs]; cbn in *; eauto.
  by destruct (Hnr e).
Qed.

Lemma nextPendingInterestId_small s :
  0 <= lastPendingInterestId_ s ->
  lastPendingInterestId_ s + 1 < uint64_modulus ->
  nextPendingInterestId s = lastPendingInterestId_ s + 1.
Proof. intros. unfold nextPendingInterestId. apply Z.mod_small. lia. Qed.

(** A timer tick returns no id, or ends in undefined behaviour. *)
Lemma perform_tick_outcome now s :
  let r := perform app (OpTimerTick now) s in
  outcome r = Returned None \/ outcome r = Undefined.
Proof.
  cbv zeta. cbn [perform]. unfold bind, modify, ret.
  pose proof (checkPitExpire_not_raised app (set_nowMilliseconds now s)) as Hnr.
  destruct (checkPitExpire _ _) as [[[]|e|] s' evs]; cbn in *; eauto.
  by destruct (Hnr e).
Qed.

(** As long as the counter does not wrap, the ids handed back along a run
    increase strictly and lie between the counter at the start and the
    counter at the end, which is not below the one at the start. *)
Lemma returnedIds_increasing ops :
  forall s,
    0 <= lastPendingInterestId_ s ->
    counterNeverWraps app ops s ->
    StronglySorted Z.lt (returnedIds app ops s) /\
    Forall (fun id => lastPendingInterestId_ s < id
                      <= lastPendingInterestId_ (runOps app ops s))
      (returnedIds app ops s) /\
    lastPendingInterestId_ s <= lastPendingInterestId_ (runOps app ops s).
Proof.
  induction ops as [|o ops IH]; intros s H0 Hnw.
  - cbn. split_and!; [constructor|constructor|lia].
  - cbn [returnedIds runOps counterNeverWraps] in *. cbv zeta in *.
    destruct Hnw as [Hstep Hnw]. destruct o as [interest onData onTimeout|id|now].
    + rewrite perform_express, expressInterest_run in *.
      destruct (connectResult s) as [e|] eqn:Hc.
      * cbn [outcome final] in *.
        pose proof (IH (afterConnect s)) as IH'.
        rewrite afterConnect_lastPendingInterestId in IH'. by apply IH'.
      * specialize (Hstep eq_refl). cbv zeta in *.
        unfold withEntry, entryFor in *. cbn [pendingInterestId_] in *.
        rewrite (nextPendingInterestId_small s) in * by lia.
        set (s' := set_transport _ _) in *.
        assert (lastPendingInterestId_ s' = lastPendingInterestId_ s + 1) as Hs' by done.
        pose proof (IH s') as IH'. rewrite Hs' in IH'.
        assert (StronglySorted Z.lt (returnedIds app ops s') /\
                Forall (fun id => lastPendingInterestId_ s + 1 < id
                                  <= lastPendingInterestId_ (runOps app ops s'))
                  (returnedIds app ops s') /\
                lastPendingInterestId_ s + 1 <= lastPendingInterestId_ (runOps app ops s'))
          as (Hs & Hf & Hle).
        { apply IH'; [lia|]. by destruct (Transport_send _ _).1. }
        assert (Forall (fun id => lastPendingInterestId_ s < id
                                  <= lastPendingInterestId_ (runOps app ops s'))
                  (returnedIds app ops s')) as Hf'.
        { eapply list.Forall_impl; [exact Hf|]. cbn. intros; lia. }
        destruct (Transport_send _ _).1; cbn [outcome final].
        -- split_and!; [done|done|lia].
        -- split_and!; [|constructor; [lia|done]|lia].
           constructor; [done|]. eapply list.Forall_impl; [exact Hf|]. cbn. intros; lia.
    + rewrite perform_remove in *. cbn [outcome final] in *.
      exact (IH (set_pendingInterestTable (keptBy id (pendingInterestTable_ s)) s) H0 Hnw).
    + destruct (perform_tick_outcome now s) as [Hout | Hout]; cbv zeta in Hout;
        rewrite Hout in *.
      * destruct (IH (final (perform app (OpTimerTick now) s))) as (Hs & Hf & Hle);
          [lia|done|].
        split_and!; [done| |lia].
        eapply list.Forall_impl; [exact Hf|]. intros x Hx. cbv beta in *. lia.
      * split_and!; [constructor|constructor|done].
Qed.

Lemma StronglySorted_lt_NoDup (l : list Z) : StronglySorted Z.lt l -> NoDup l.
Proof.
  induction 1 as [|x l _ IH Hx]; constructor; [|done].
  intros Hin. rewrite list.Forall_forall in Hx. specialize (Hx x Hin). lia.
Qed.

(** A run whose closures draw no id, and which calls [expressInterest] fewer
    times than there are ids left before [2^64], is a run in which the
    counter does not wrap. *)
Lemma counterNeverWraps_of_count ops :
  keepsPendingInterestIds app ->
  forall s,
    0 <= lastPendingInterestId_ s ->
    lastPendingInterestId_ s + Z.of_nat (expressCount ops) < uint64_modulus ->
    counterNeverWraps app ops s.
Proof.
  intros Hkeep. induction ops as [|o ops IH]; intros s H0 Hbound; [done|].
  cbn [counterNeverWraps]. cbv zeta. destruct o as [interest onData onTimeout|id|now].
  - cbn [expressCount] in Hbound. split; [intros _; lia|].
    rewrite perform_express, expressInterest_run.
    destruct (connectResult s) as [e|] eqn:Hc.
    + cbn [outcome final]. apply IH; rewrite afterConnect_lastPendingInterestId; lia.
    + cbv zeta. unfold withEntry, entryFor. cbn [pendingInterestId_].
      rewrite (nextPendingInterestId_small s) by lia.
      set (s' := set_transport _ _).
      assert (lastPendingInterestId_ s' = lastPendingInterestId_ s + 1) as Hs' by done.
      assert (counterNeverWraps app ops s') as Hnw by (apply IH; rewrite Hs'; lia).
      by destruct (Transport_send _ _).1.
  - split; [done|]. rewrite perform_remove. cbn [outcome final]. by apply IH.
  - destruct (perform_tick now s Hkeep) as [Hlast Hout]. cbv zeta in *.
    cbn [expressCount] in Hbound. split; [lia|].
    destruct Hout as [-> | ->]; [|done]. apply IH; rewrite Hlast; lia.
Qed.

(** C9. Along every sequence of [expressInterest], [removePendingInterest]
    and timer ticks, whatever the closures do to the tables and even if they
    draw ids themselves, and as long as the counter, a [uint64_t], does not
    wrap (it would after [2^64] draws): the ids that [expressInterest]
    returns increase strictly, hence are pairwise distinct, and each of them
    is a value of the counter, above the one the run started with and at
    most the one it ends with.  The counter starts at 0 (node.cpp:21): the
    ids of a process are positive. *)
Theorem returnedIds_distinct_increasing (ops : list Op) (s : Node T) :
  0 <= lastPendingInterestId_ s ->
  counterNeverWraps app ops s ->
  let ids := returnedIds app ops s in
  StronglySorted Z.lt ids /\
  NoDup ids /\
  Forall (fun id => lastPendingInterestId_ s < id
                    <= lastPendingInterestId_ (runOps app ops s)) ids.
Proof.
  intros H0 Hnw. cbv zeta.
  destruct (returnedIds_increasing ops s H0 Hnw) as (Hs & Hf & _).
  split_and!; [done|by apply StronglySorted_lt_NoDup|done].
Qed.

End Ids.

(** * Concrete runs *)

(** ** The scenarios of the specification *)

(** Express and match: [/a/b] is expressed, the Data [/a/b/c] comes in;
    [onData] is called once and the PIT is empty. *)
Example scenario_express_and_match :
  let r1 := expressInterest (Interest_of_name_lifetime (uri "/a/b") 1000)
              (Some 1%nat) (Some 2%nat) (Node_new goodTransport 0) in
  let r2 := onReceiveElement quietApp blockDataABC (final r1) in
  outcome r1 = Returned 1 /\
  events r2 = [EvCall (CallOnData 1%nat (Interest_of_name_lifetime (uri "/a/b") 1000) dataABC)] /\
  pendingInterestTable_ (final r2) = [].
Proof. vm_compute. done. Qed.

(** Timeout: [/x] is expressed for 150 ms, the timer fires 200 ms later;
    [onTimeout] is called once, [onData] never. *)
Example scenario_timeout :
  let r1 := expressInterest (Interest_of_name_lifetime (uri "/x") 150)
              (Some 1%nat) (Some 2%nat) (Node_new goodTransport 0) in
  let r2 := perform quietApp (OpTimerTick 200) (final r1) in
  events r2 = [EvCall (CallOnTimeout 2%nat (Interest_of_name_lifetime (uri "/x") 150));
               EvTimerArmed 100] /\
  pendingInterestTable_ (final r2) = [].
Proof. vm_compute. done. Qed.

(** Cancel before fire: [/a/b] is expressed and cancelled; the Data calls
    nothing. *)
Example scenario_cancel_before_fire :
  let r1 := expressInterest (Interest_of_name_lifetime (uri "/a/b") 1000)
              (Some 1%nat) (Some 2%nat) (Node_new goodTransport 0) in
  let r2 := removePendingInterest 1 (final r1) in
  let r3 := onReceiveElement quietApp blockDataABC (final r2) in
  outcome r1 = Returned 1 /\ outcome r3 = Returned tt /\ events r3 = [].
Proof. vm_compute. done. Qed.

(** Longest-prefix dispatch, first half: with [/a] and [/a/b] registered, the
    Interest [/a/b/c] goes to the handler of [/a/b]. *)
Example scenario_longest_prefix_first_half :
  events (onReceiveElement quietApp (Interest_wireEncode (Interest_of_name (uri "/a/b/c")))
            nodeTwoPrefixes)
    = [EvCall (CallOnInterest 2%nat (uri "/a/b") (Interest_of_name (uri "/a/b/c")) 2)].
Proof. vm_compute. done. Qed.

(** A failing [connect] is surfaced before anything is inserted. *)
Example expressInterest_connect_failure :
  let s := Node_new connectFailsTransport 0 in
  let r := expressInterest interestA1000 (Some 1%nat) (Some 2%nat) s in
  outcome r = Raised TransportError /\
  pendingInterestTable_ (final r) = [] /\
  lastPendingInterestId_ (final r) = 0.
Proof. vm_compute. done. Qed.

(** A closure that cancels pending Interests from inside the sweep: the
    backward loop then indexes the table beyond its end. *)
Example checkPitExpire_reentrant_cancel :
  outcome (checkPitExpire cancellingApp nodeTwoExpired) = Undefined.
Proof. vm_compute. done. Qed.

(** ** The claims on concrete inputs *)

Lemma quietApp_keepsPitAndClock {T} : keepsPitAndClock (@quietApp T).
Proof. by intros c s. Qed.

Lemma quietApp_keepsPendingInterestIds {T} : keepsPendingInterestIds (@quietApp T).
Proof. by intros c s. Qed.

(** The run of five operations draws three ids, and its counter does not
    wrap. *)
Example fiveOps_counterNeverWraps :
  counterNeverWraps quietApp fiveOps (Node_new goodTransport 0) /\
  returnedIds quietApp fiveOps (Node_new goodTransport 0) = [1; 2; 3].
Proof.
  split; [|reflexivity].
  apply counterNeverWraps_of_count;
    [apply quietApp_keepsPendingInterestIds|done|by vm_compute].
Qed.

(** C1. With [/a] then [/a/b] registered and the Interest [/a/x] coming in,
    the lookup of the code returns the entry of [/a/b], whose prefix is not
    a prefix of [/a/x], and the dispatcher calls its closure; the lookup of
    the specification returns the entry of [/a]. *)
Theorem getEntryForRegisteredPrefix_returns_non_matching_prefix :
  getEntryForRegisteredPrefix (uri "/a/x") [registeredA; registeredAB]
    = Some (1%nat, registeredAB) /\
  ndn_Name_match (prefix_ registeredAB) (uri "/a/x") = false /\
  spec_longestMatch (uri "/a/x") [registeredA; registeredAB] = Some (0%nat, registeredA) /\
  events (onReceiveElement quietApp blockInterestAX nodeTwoPrefixes)
    = [EvCall (CallOnInterest 2%nat (uri "/a/b") interestAX 2)].
Proof. vm_compute. done. Qed.

(** C2 fails as stated: with [/a] and [/b] inserted in this order and both
    expired, the sweep calls the timeout of [/b] first. *)
Lemma checkPitExpire_insertion_order_counterexample :
  let r := checkPitExpire quietApp nodeTwoExpired in
  outcome r = Returned tt /\
  pendingInterestTable_ (final r) = [] /\
  timeoutCalls (events r) = [(22%nat, interest_ pendingB); (12%nat, interest_ pendingA)] /\
  timeoutsOf (expiredAt 500 (pendingInterestTable_ nodeTwoExpired))
    = [(12%nat, interest_ pendingA); (22%nat, interest_ pendingB)] /\
  timeoutCalls (events r)
    <> timeoutsOf (expiredAt 500 (pendingInterestTable_ nodeTwoExpired)).
Proof. vm_compute. split_and!; done. Qed.

Lemma checkPitExpire_sweeps_backwards_witness :
  let s := set_nowMilliseconds 500 nodeThreePending in
  let r := checkPitExpire quietApp s in
  outcome r = Returned tt /\
  pendingInterestTable_ (final r) = pendingAt 500 (pendingInterestTable_ s) /\
  events r = timeoutEventsOf (rev (expiredAt 500 (pendingInterestTable_ s)))
               ++ [EvTimerArmed 100] /\
  timeoutCalls (events r) = timeoutsOf (rev (expiredAt 500 (pendingInterestTable_ s))).
Proof.
  apply (checkPitExpire_sweeps_backwards quietApp (set_nowMilliseconds 500 nodeThreePending)).
  intros c s. split; reflexivity.
Defined.

(** C3 fails as stated: on a transport whose [send] raises,
    [expressInterest] raises and leaves its entry in the PIT. *)
Lemma expressInterest_send_failure_counterexample :
  let s := Node_new sendFailsTransport 0 in
  let r := expressInterest interestA1000 (Some 1%nat) (Some 2%nat) s in
  outcome r = Raised TransportError /\
  pendingInterestTable_ (final r)
    = [mkPendingInterest 1 interestA1000 (Some 1%nat) (Some 2%nat) 1000] /\
  pendingInterestTable_ (final r) <> pendingInterestTable_ s.
Proof. vm_compute. split_and!; done. Qed.

Lemma expressInterest_error_after_insertion_witness :
  let s := Node_new sendFailsTransport 0 in
  let r := expressInterest interestA1000 (Some 1%nat) (Some 2%nat) s in
  (connectResult s = Some TransportError /\
   pendingInterestTable_ (final r) = pendingInterestTable_ s /\
   lastPendingInterestId_ (final r) = lastPendingInterestId_ s)
  \/
  (connectResult s = None /\
   (Transport_send (Interest_wireEncode interestA1000) (transport_ (afterConnect s))).1
     = Some TransportError /\
   pendingInterestTable_ (final r) =
     pendingInterestTable_ s ++ [entryFor s interestA1000 (Some 1%nat) (Some 2%nat)] /\
   lastPendingInterestId_ (final r) = nextPendingInterestId s).
Proof.
  apply (expressInterest_error_after_insertion interestA1000 (Some 1%nat) (Some 2%nat)
           (Node_new sendFailsTransport 0) TransportError).
  reflexivity.
Defined.

Lemma onReceiveElement_data_first_match_removed_before_call_witness :
  let s := nodeThreePending in
  let s' := set_pendingInterestTable [pendingB; pendingA] s in
  let c := CallOnData 31%nat (interest_ pendingAB) dataABC in
  getEntryIndexForExpressedInterest (Data_name dataABC) (pendingInterestTable_ s)
    = Some (1%nat, pendingAB) /\
  onReceiveElement quietApp blockDataABC s = mkRun (Returned tt) s' [EvCall c].
Proof.
  pose proof (onReceiveElement_data_first_match_removed_before_call
                quietApp blockDataABC dataABC nodeThreePending) as Hthm.
  cbv zeta in Hthm.
  assert (getEntryIndexForExpressedInterest (Data_name dataABC)
            (pendingInterestTable_ nodeThreePending) = Some (1%nat, pendingAB)) as Hfind
    by reflexivity.
  rewrite Hfind in Hthm.
  destruct Hthm as (_ & _ & _ & _ & Hrun).
  - vm_compute. lia.
  - reflexivity.
  - reflexivity.
  - split; [exact Hfind|exact Hrun].
Defined.

(** C5. The exception of a closure is swallowed by the timer but not by the
    dispatcher: with [/a/b] pending and the Data [/a/b/c] coming in, the
    [onData] closure of [/a/b] is called, raises, and its exception leaves
    [onReceiveElement], the entry being erased; on the same node a timer tick
    whose [onTimeout] closures raise returns normally. *)
Theorem onReceiveElement_lets_onData_exception_out :
  let r := onReceiveElement raisingApp blockDataABC nodeThreePending in
  events r = [EvCall (CallOnData 31%nat (interest_ pendingAB) dataABC)] /\
  outcome r = Raised (AppError 1) /\
  outcome r <> Returned tt /\
  pendingInterestTable_ (final r) = [pendingB; pendingA] /\
  outcome (checkPitExpire raisingApp (set_nowMilliseconds 500 nodeThreePending))
    = Returned tt.
Proof. vm_compute. split_and!; done. Qed.

Lemma callback_exceptions_caught_by_timer_only_example :
  let r := onReceiveElement raisingApp blockDataABC nodeThreePending in
  let c := CallOnData 31%nat (interest_ pendingAB) dataABC in
  exists s',
    (s' = nodeThreePending \/
     exists i, s' = set_pendingInterestTable
                      (delete i (pendingInterestTable_ nodeThreePending)) nodeThreePending) /\
    outcome r = outcome_of (raisingApp c s').1 /\
    final r = (raisingApp c s').2 /\
    forall e, (raisingApp c s').1 = Some e -> outcome r = Raised e.
Proof.
  apply (proj2 (proj2 (callback_exceptions_caught_by_timer_only raisingApp))
           blockDataABC nodeThreePending
           (CallOnData 31%nat (interest_ pendingAB) dataABC)).
  reflexivity.
Defined.



Lemma removePendingInterest_removes_all_and_is_idempotent_witness :
  final (removePendingInterest 7 nodeThreePending) = nodeThreePending /\
  pendingInterestTable_ (final (removePendingInterest 3 nodeThreePending))
    = [pendingB; pendingA].
Proof.
  split.
  - apply (removePendingInterest_removes_all_and_is_idempotent 7 nodeThreePending).
    repeat constructor; vm_compute; discriminate.
  - destruct (removePendingInterest_removes_all_and_is_idempotent 3 nodeThreePending)
      as (_ & _ & -> & _).
    reflexivity.
Defined.

Lemma returnedIds_distinct_increasing_witness :
  let s := Node_new goodTransport 0 in
  let ids := returnedIds expressingApp reentrantOps s in
  ids = [1; 3] /\
  lastPendingInterestId_ (runOps expressingApp reentrantOps s) = 3 /\
  StronglySorted Z.lt ids /\
  NoDup ids /\
  Forall (fun id => lastPendingInterestId_ s < id
                    <= lastPendingInterestId_ (runOps expressingApp reentrantOps s)) ids.
Proof.
  cbv zeta. split; [reflexivity|]. split; [reflexivity|].
  apply (returnedIds_distinct_increasing expressingApp reentrantOps (Node_new goodTransport 0)).
  - by vm_compute.
  - vm_compute. split_and!; try done; intros _; reflexivity.
Defined.

Lemma onReceiveElement_interest_never_dropped_witness :
  let r := onReceiveElement quietApp blockInterestAX nodeTwoPrefixes in
  exists i entry,
    (forall name,
       getEntryForRegisteredPrefix name (registeredPrefixTable_ nodeTwoPrefixes)
         = Some (i, entry)) /\
    registeredPrefixTable_ nodeTwoPrefixes !! i = Some entry /\
    (forall j e, registeredPrefixTable_ nodeTwoPrefixes !! j = Some e ->
       (Name_size (prefix_ e) <= Name_size (prefix_ entry))%nat) /\
    (forall j e, (j < i)%nat -> registeredPrefixTable_ nodeTwoPrefixes !! j = Some e ->
       (Name_size (prefix_ e) < Name_size (prefix_ entry))%nat) /\
    match onInterest_ entry with
    | Some h =>
        let c := CallOnInterest h (prefix_ entry) interestAX (registeredPrefixId_ entry) in
        r = mkRun (outcome_of (quietApp c nodeTwoPrefixes).1)
              (quietApp c nodeTwoPrefixes).2 [EvCall c]
    | None => r = mkRun (Raised BadFunctionCall) nodeTwoPrefixes []
    end.
Proof.
  apply (onReceiveElement_interest_never_dropped quietApp blockInterestAX interestAX
           nodeTwoPrefixes).
  - vm_compute. discriminate.
  - reflexivity.
  - reflexivity.
Defined.

(** * More of node.cpp *)

(** ** Removing a registered prefix *)

Section RemoveRegisteredPrefix.

Context {T : Type} `{!Transport T} `{!Codec}.
Implicit Type s : Node T.

Lemma set_registeredPrefixTable_same s :
  set_registeredPrefixTable (registeredPrefixTable_ s) s = s.
Proof. by destruct s. Qed.

Lemma set_registeredPrefixTable_twice rpt rpt' s :
  set_registeredPrefixTable rpt (set_registeredPrefixTable rpt' s)
    = set_registeredPrefixTable rpt s.
Proof. reflexivity. Qed.

Lemma registeredPrefixTable_set rpt s :
  registeredPrefixTable_ (set_registeredPrefixTable rpt s) = rpt.
Proof. reflexivity. Qed.

Lemma removeRegisteredPrefix_loop_filter id k :
  forall s,
    (k <= length (registeredPrefixTable_ s))%nat ->
    removeRegisteredPrefix_loop id k s =
      mkRun (Returned tt)
        (set_registeredPrefixTable
           (keptPrefixes id (take k (registeredPrefixTable_ s))
              ++ drop k (registeredPrefixTable_ s)) s)
        [].
Proof.
  induction k as [|i IH]; intros s Hk.
  - destruct s; reflexivity.
  - cbn [removeRegisteredPrefix_loop]. unfold bind at 1. cbn.
    destruct (lookup_lt_is_Some_2 (registeredPrefixTable_ s) i) as [e He]; [lia|].
    rewrite He.
    destruct (lookup_middle _ _ _ He) as (l1 & l2 & Hl & <-).
    unfold bind at 1. case_bool_decide as Hid; cbn.
    + rewrite IH; cbn; rewrite Hl, delete_middle.
      2:{ rewrite Hl, length_app in Hk. cbn in Hk. rewrite length_app. lia. }
      rewrite set_registeredPrefixTable_twice. do 2 f_equal.
      rewrite take_S_middle, take_app_length, drop_app_length, drop_S_middle.
      unfold keptPrefixes.
      rewrite list.filter_app, filter_cons_False by (intros Hne; by apply Hne).
      by rewrite filter_nil, app_nil_r.
    + rewrite IH by lia. rewrite Hl. do 2 f_equal.
      rewrite take_S_middle, take_app_length, drop_app_length, drop_S_middle.
      unfold keptPrefixes. rewrite list.filter_app, filter_cons_True by done.
      by rewrite filter_nil, <- app_assoc.
Qed.

Lemma removeRegisteredPrefix_run id s :
  removeRegisteredPrefix id s =
    mkRun (Returned tt)
      (set_registeredPrefixTable (keptPrefixes id (registeredPrefixTable_ s)) s) [].
Proof.
  unfold removeRegisteredPrefix, bind, gets. cbn.
  rewrite removeRegisteredPrefix_loop_filter by done.
  by rewrite firstn_all, drop_all, app_nil_r.
Qed.

Lemma keptPrefixes_Forall id rpt :
  Forall (fun e => registeredPrefixId_ e <> id) (keptPrefixes id rpt).
Proof.
  unfold keptPrefixes. apply list.Forall_forall. intros e He.
  by apply list_elem_of_filter in He as [? _].
Qed.

Lemma keptPrefixes_id id rpt :
  Forall (fun e => registeredPrefixId_ e <> id) rpt -> keptPrefixes id rpt = rpt.
Proof.
  unfold keptPrefixes. induction 1 as [|e rpt He _ IH]; [done|].
  by rewrite filter_cons_True, IH.
Qed.

(** X1. [removeRegisteredPrefix id] always returns: it keeps exactly the
    registered prefixes whose id differs, in their order, touches nothing
    else of the node, and talks to nobody (no Interest is sent, so the hub
    is not told); no entry with this id is left, and a second call changes
    nothing. *)
Theorem removeRegisteredPrefix_filters_silently (id : Z) (s : Node T) :
  let r := removeRegisteredPrefix id s in
  outcome r = Returned tt /\
  events r = [] /\
  final r = set_registeredPrefixTable (keptPrefixes id (registeredPrefixTable_ s)) s /\
  Forall (fun e => registeredPrefixId_ e <> id) (registeredPrefixTable_ (final r)) /\
  removeRegisteredPrefix id (final r) = mkRun (Returned tt) (final r) [].
Proof.
  cbv zeta. rewrite !removeRegisteredPrefix_run. cbn [outcome events final].
  rewrite registeredPrefixTable_set, set_registeredPrefixTable_twice.
  split_and!; try done.
  - apply keptPrefixes_Forall.
  - by rewrite keptPrefixes_id by apply keptPrefixes_Forall.
Qed.

(** X3. Registering a prefix under an id that no entry of the table carries
    and then removing this id gives back the registered prefix table as it
    was; the removal sends nothing, so that the self-registration Interest
    stays the only thing the hub has seen. *)
Theorem registerPrefixHelper_then_remove
    (id : Z) (prefix : Name) (onInterest : OnInterest) (onRegisterFailed : option Handler)
    (flags : ForwardingFlags) (s : Node T) :
  Forall (fun e => registeredPrefixId_ e <> id) (registeredPrefixTable_ s) ->
  let r1 := registerPrefixHelper id prefix onInterest onRegisterFailed flags s in
  let r2 := removeRegisteredPrefix id (final r1) in
  registeredPrefixTable_ (final r2) = registeredPrefixTable_ s /\
  events r1 ++ events r2
    = [EvSend (Interest_wireEncode (selfRegistrationInterest (ndndId_ s) prefix flags))].
Proof.
  intros Hfresh. cbv zeta. rewrite removeRegisteredPrefix_run.
  unfold registerPrefixHelper, bind, gets, modify, transport_send. cbn.
  split; [|done]. unfold keptPrefixes.
  rewrite list.filter_app, filter_cons_False by (intros Hne; by apply Hne).
  rewrite filter_nil, app_nil_r. by apply keptPrefixes_id.
Qed.

End RemoveRegisteredPrefix.

(** ** More on the dispatcher *)

Section DispatcherMore.

Context {T : Type} `{!Transport T} `{!Codec}.
Variable app : App T.
Implicit Type s : Node T.


(** X4. A block that is neither an Interest nor a Data, and an Interest that
    finds the registered prefix table empty, are dropped in silence: the
    dispatcher returns, calls nothing and leaves the node as it was. *)
Theorem onReceiveElement_drops_in_silence (block : Block) (s : Node T) :
  (Block_type block <> Tlv_Interest /\ Block_type block <> Tlv_Data) \/
  (Block_type block = Tlv_Interest /\ is_Some (Interest_wireDecode block) /\
   registeredPrefixTable_ s = []) ->
  onReceiveElement app block s = mkRun (Returned tt) s [].
Proof.
  intros [[Hi Hd]|(Hi & [interest Hdec] & Hrpt)]; unfold onReceiveElement.
  - by rewrite (proj2 (N.eqb_neq _ _) Hi), (proj2 (N.eqb_neq _ _) Hd).
  - rewrite Hi, N.eqb_refl, Hdec. unfold bind, decode, ret, gets. by rewrite Hrpt.
Qed.

(** X5. A block that does not decode makes the dispatcher raise before it
    looks at a table: nothing is called and the node is as it was. *)
Theorem onReceiveElement_decode_failure (block : Block) (s : Node T) :
  (Block_type block = Tlv_Interest /\ Interest_wireDecode block = None) \/
  (Block_type block <> Tlv_Interest /\ Block_type block = Tlv_Data /\
   Data_wireDecode block = None) ->
  onReceiveElement app block s = mkRun (Raised DecodeError) s [].
Proof.
  intros [[Hi Hdec]|(Hi & Hd & Hdec)]; unfold onReceiveElement.
  - by rewrite Hi, N.eqb_refl, Hdec.
  - by rewrite (proj2 (N.eqb_neq _ _) Hi), Hd, N.eqb_refl, Hdec.
Qed.

End DispatcherMore.

(** ** More on the two lookups *)

Section LookupsMore.

Implicit Types (pit : list PendingInterest) (rpt : list RegisteredPrefix) (name : Name).

Lemma getEntryForRegisteredPrefix_from_snoc name rest e :
  forall k best,
    getEntryForRegisteredPrefix_from name k (rest ++ [e]) best =
      match getEntryForRegisteredPrefix_from name k rest best with
      | None => Some ((k + length rest)%nat, e)
      | Some (i, l) =>
          if (Name_size (prefix_ l) <? Name_size (prefix_ e))%nat
          then Some ((k + length rest)%nat, e)
          else Some (i, l)
      end.
Proof.
  induction rest as [|x rest IH]; intros k best; cbn [app length getEntryForRegisteredPrefix_from].
  - rewrite Nat.add_0_r. by destruct best as [[i l]|].
  - rewrite IH. by replace (S k + length rest)%nat with (k + S (length rest))%nat by lia.
Qed.

(** X6. A prefix registered after others takes over the dispatch of every
    incoming Interest, whatever its name, exactly when it has more
    components than the entry that the lookup returned until then;
    otherwise the lookup keeps returning that entry, and the new one is
    never returned.  On an empty table the new entry is returned. *)
Theorem getEntryForRegisteredPrefix_after_registration
    (name : Name) (rpt : list RegisteredPrefix) (e : RegisteredPrefix) :
  getEntryForRegisteredPrefix name (rpt ++ [e]) =
    match getEntryForRegisteredPrefix name rpt with
    | None => Some (length rpt, e)
    | Some (i, l) =>
        if (Name_size (prefix_ l) <? Name_size (prefix_ e))%nat
        then Some (length rpt, e)
        else Some (i, l)
    end.
Proof. unfold getEntryForRegisteredPrefix. by rewrite getEntryForRegisteredPrefix_from_snoc. Qed.

(** Two results that both are the longest matching entry, earliest on ties,
    are the same. *)
Lemma longestMatching_unique name rpt i e found :
  longestMatching name rpt (Some (i, e)) ->
  longestMatching name rpt found ->
  found = Some (i, e).
Proof.
  intros (Hi & Hm & Hmax & Hfirst) Hfound.
  destruct found as [[i' e']|]; cbn in Hfound.
  - destruct Hfound as (Hi' & Hm' & Hmax' & Hfirst').
    destruct (Nat.lt_trichotomy i i') as [Hlt|[->|Hgt]].
    + specialize (Hfirst' i e Hlt Hi Hm). specialize (Hmax i' e' Hi' Hm'). lia.
    + rewrite Hi in Hi'. by injection Hi' as ->.
    + specialize (Hfirst i' e' Hgt Hi' Hm'). specialize (Hmax' i e Hi Hm). lia.
  - rewrite list.Forall_forall in Hfound.
    assert (ndn_Name_match (prefix_ e) name = false) as Hno.
    { apply Hfound. apply list_elem_of_lookup. eauto. }
    congruence.
Qed.

(** X7. Whenever the prefix of the entry that the lookup returns is a prefix
    of the name, this entry is the longest-prefix match of the name: every
    entry of the table whose prefix is a prefix of the name has at most as
    many components, and every earlier one has fewer; it is then the entry
    that the lookup of the specification returns. *)
Theorem getEntryForRegisteredPrefix_right_when_it_matches
    (name : Name) (rpt : list RegisteredPrefix) (i : nat) (e : RegisteredPrefix) :
  getEntryForRegisteredPrefix name rpt = Some (i, e) ->
  ndn_Name_match (prefix_ e) name = true ->
  longestMatching name rpt (Some (i, e)) /\
  spec_longestMatch name rpt = Some (i, e).
Proof.
  intros Hfind Hm.
  pose proof (getEntryForRegisteredPrefix_longest name rpt) as Hlong.
  rewrite Hfind in Hlong. destruct Hlong as (Hi & Hmax & Hfirst).
  assert (longestMatching name rpt (Some (i, e))) as Hbest.
  { split_and!; [done|done| |].
    - intros j e' Hj _. by apply (Hmax j).
    - intros j e' Hlt Hj _. by apply (Hfirst j). }
  split; [done|].
  apply (longestMatching_unique name rpt i e); [done|].
  apply spec_longestMatch_longest.
Qed.

Lemma getEntryIndexForExpressedInterest_from_snoc name rest pi :
  forall k,
    getEntryIndexForExpressedInterest_from name k (rest ++ [pi]) =
      match getEntryIndexForExpressedInterest_from name k rest with
      | Some found => Some found
      | None =>
          if Interest_matchesName (interest_ pi) name
          then Some ((k + length rest)%nat, pi)
          else None
      end.
Proof.
  induction rest as [|x rest IH]; intros k;
    cbn [app length getEntryIndexForExpressedInterest_from].
  - rewrite Nat.add_0_r. by destruct (Interest_matchesName _ _).
  - destruct (Interest_matchesName (interest_ x) name); [done|].
    rewrite IH. by replace (S k + length rest)%nat with (k + S (length rest))%nat by lia.
Qed.

Lemma getEntryIndexForExpressedInterest_from_no_match name rest :
  Forall (fun e => Interest_matchesName (interest_ e) name = false) rest ->
  forall k, getEntryIndexForExpressedInterest_from name k rest = None.
Proof.
  induction 1 as [|x rest Hx _ IH]; intros k; cbn; [done|]. by rewrite Hx.
Qed.

End LookupsMore.

(** ** Registering a prefix *)

Section RegisterPrefix.

Context {T : Type} `{!Transport T} `{!Codec} `{!NameUri}.
Variable NdndIdFetcher : FetcherOf.
Implicit Type s : Node T.

(** The id that the next [registerPrefix] draws in [s]. *)
Lemma registerPrefix_known_run prefix onInterest onRegisterFailed flags s :
  ndndId_ s <> [] ->
  registerPrefix NdndIdFetcher prefix onInterest onRegisterFailed flags s =
    let id := (lastRegisteredPrefixId_ s + 1) mod uint64_modulus in
    let wire := Interest_wireEncode (selfRegistrationInterest (ndndId_ s) prefix flags) in
    let sent := Transport_send wire (transport_ s) in
    mkRun (match sent.1 with None => Returned id | Some e => Raised e end)
      (set_transport sent.2
         (set_registeredPrefixTable
            (registeredPrefixTable_ s ++ [mkRegisteredPrefix id prefix onInterest])
            (set_lastRegisteredPrefixId id s)))
      [EvSend wire].
Proof.
  intros Hknown.
  assert ((length (ndndId_ s) =? 0)%nat = false) as Hlen by (by destruct (ndndId_ s)).
  unfold registerPrefix, getNextRegisteredPrefixId, registerPrefixHelper,
    bind, gets, modify, ret, transport_send.
  cbn [ndndId_ set_lastRegisteredPrefixId]. rewrite Hlen. cbn.
  destruct (Transport_send _ _) as [[e|] t]; reflexivity.
Qed.

(** X8. When the id of the hub is known, [registerPrefix] appends the entry
    (prefix, onInterest, id) to the registered prefix table and sends the
    self-registration Interest, leaving the PIT and its id counter alone;
    the id it returns is the id of the entry.  The entry is appended before
    the send: when the send raises, the caller is given no id, and the entry
    stays in the table. *)
Theorem registerPrefix_with_known_hub
    (prefix : Name) (onInterest : OnInterest) (onRegisterFailed : option Handler)
    (flags : ForwardingFlags) (s : Node T) :
  ndndId_ s <> [] ->
  let r := registerPrefix NdndIdFetcher prefix onInterest onRegisterFailed flags s in
  let wire := Interest_wireEncode (selfRegistrationInterest (ndndId_ s) prefix flags) in
  exists id,
    registeredPrefixTable_ (final r)
      = registeredPrefixTable_ s ++ [mkRegisteredPrefix id prefix onInterest] /\
    events r = [EvSend wire] /\
    pendingInterestTable_ (final r) = pendingInterestTable_ s /\
    lastPendingInterestId_ (final r) = lastPendingInterestId_ s /\
    outcome r = match (Transport_send wire (transport_ s)).1 with
                | None => Returned id
                | Some e => Raised e
                end.
Proof.
  intros Hknown. cbv zeta. rewrite (registerPrefix_known_run _ _ _ _ _ Hknown). cbv zeta.
  eexists. split_and!; reflexivity.
Qed.

(** X9. When the id of the hub is not known, [registerPrefix] leaves the
    registered prefix table as it is and expresses the probe Interest
    instead: unless [connect] raises, the PIT gets one more entry, for the
    Interest [ndndIdFetcherInterest_] of lifetime 4000 ms, with the deadline
    4000 ms after the clock (their 64-bit sum), whose [onData] and
    [onTimeout] both are the
    fetcher built for the id drawn, the prefix, the closures and the flags;
    the probe is what is sent, and the id returned, when the send returns, is
    the one the fetcher holds. *)
Theorem registerPrefix_with_unknown_hub
    (prefix : Name) (onInterest : OnInterest) (onRegisterFailed : option Handler)
    (flags : ForwardingFlags) (s : Node T) :
  ndndId_ s = [] ->
  let r := registerPrefix NdndIdFetcher prefix onInterest onRegisterFailed flags s in
  exists id,
    let fetcher := Some (NdndIdFetcher id prefix onInterest onRegisterFailed flags) in
    registeredPrefixTable_ (final r) = registeredPrefixTable_ s /\
    match connectResult s with
    | Some e =>
        outcome r = Raised e /\
        pendingInterestTable_ (final r) = pendingInterestTable_ s /\
        events r = connectEvents s
    | None =>
        pendingInterestTable_ (final r) =
          pendingInterestTable_ s
            ++ [mkPendingInterest (nextPendingInterestId s) ndndIdFetcherInterest_
                  fetcher fetcher (int64_add (nowMilliseconds s) 4000)] /\
        events r = connectEvents s ++ [EvSend (Interest_wireEncode ndndIdFetcherInterest_)] /\
        outcome r =
          match (Transport_send (Interest_wireEncode ndndIdFetcherInterest_)
                   (transport_ (afterConnect s))).1 with
          | None => Returned id
          | Some e => Raised e
          end
    end.
Proof.
  intros Hunknown. cbv zeta.
  exists ((lastRegisteredPrefixId_ s + 1) mod uint64_modulus).
  unfold registerPrefix, getNextRegisteredPrefixId. unfold bind at 1 2 3 4. cbn.
  rewrite Hunknown. cbn [length Nat.eqb].
  unfold bind. rewrite expressInterest_run.
  set (s0 := set_lastRegisteredPrefixId _ s).
  assert (connectResult s0 = connectResult s) as -> by done.
  destruct (connectResult s) as [e|] eqn:Hc.
  - cbn. unfold afterConnect, connectEvents. cbn.
    destruct (Transport_isConnected (transport_ s)); done.
  - cbv zeta. unfold withEntry, entryFor, afterConnect, connectEvents, deadlineAt,
      nextPendingInterestId. cbn.
    destruct (Transport_isConnected (transport_ s)); cbn.
    + destruct (Transport_send _ _) as [[e|] t]; cbn; rewrite ?app_nil_r; done.
    + destruct (Transport_connect _) as [ce t0]; cbn.
      destruct (Transport_send _ _) as [[e|] t]; cbn; rewrite ?app_nil_r; done.
Qed.

End RegisterPrefix.

(** ** Expressing, then receiving or cancelling *)

Section ExpressThen.

Context {T : Type} `{!Transport T} `{!Codec}.
Variable app : App T.
Implicit Type s : Node T.

(** X10. Express and match. On a node none of whose pending Interests
    matches the name of a Data, once [expressInterest] has been called for an
    Interest whose name is a prefix of that name, with an [onData] closure,
    and whether or not its send raised, the Data makes the dispatcher call
    this closure once, with the Interest and the Data, on a node whose PIT is
    the one from before the Interest was expressed. *)
Theorem expressInterest_then_data
    (interest : Interest) (h : Handler) (onTimeout : OnTimeout)
    (block : Block) (data : Data) (s : Node T) :
  connectResult s = None ->
  Forall (fun e => Interest_matchesName (interest_ e) (Data_name data) = false)
    (pendingInterestTable_ s) ->
  Interest_matchesName interest (Data_name data) = true ->
  Block_type block <> Tlv_Interest ->
  Block_type block = Tlv_Data ->
  Data_wireDecode block = Some data ->
  let s1 := final (expressInterest interest (Some h) onTimeout s) in
  let s2 := set_pendingInterestTable (pendingInterestTable_ s) s1 in
  let c := CallOnData h interest data in
  onReceiveElement app block s1 = mkRun (outcome_of (app c s2).1) (app c s2).2 [EvCall c].
Proof.
  intros Hc Hnone Hmatch Hi Hd Hdec. cbv zeta.
  rewrite (onReceiveElement_data app _ _ _ Hi Hd Hdec).
  assert (pendingInterestTable_ (final (expressInterest interest (Some h) onTimeout s))
          = pendingInterestTable_ s ++ [entryFor s interest (Some h) onTimeout]) as Hpit.
  { rewrite expressInterest_run, Hc. reflexivity. }
  rewrite Hpit. unfold getEntryIndexForExpressedInterest.
  rewrite getEntryIndexForExpressedInterest_from_snoc.
  rewrite (getEntryIndexForExpressedInterest_from_no_match _ _ Hnone).
  cbn [entryFor interest_]. rewrite Hmatch. cbn [Nat.add].
  rewrite call_function_run. cbn [onData_ interest_].
  by rewrite delete_middle, app_nil_r.
Qed.

(** X11. Express and cancel. Cancelling the id that [expressInterest] has
    just returned, when no entry of the PIT carried this id before the call,
    gives back the PIT as it was. *)
Theorem expressInterest_then_cancel
    (interest : Interest) (onData : OnData) (onTimeout : OnTimeout) (s : Node T) (id : Z) :
  outcome (expressInterest interest onData onTimeout s) = Returned id ->
  Forall (fun e => pendingInterestId_ e <> id) (pendingInterestTable_ s) ->
  let s1 := final (expressInterest interest onData onTimeout s) in
  pendingInterestTable_ (final (removePendingInterest id s1)) = pendingInterestTable_ s.
Proof.
  intros Hret Hfresh. cbv zeta.
  destruct (expressInterest_returned _ _ _ _ _ Hret) as [-> Hc].
  rewrite removePendingInterest_run, expressInterest_run, Hc. cbv zeta.
  unfold withEntry. cbn [final pendingInterestTable_ set_transport set_pendingInterestTable].
  unfold keptBy.
  rewrite list.filter_app, filter_cons_False by (intros Hne; by apply Hne).
  rewrite filter_nil, app_nil_r. by apply keptBy_id.
Qed.

End ExpressThen.

(** ** More on the timer *)

Section TimerMore.

Context {T : Type} `{!Transport T} `{!Codec}.
Variable app : App T.
Implicit Type s : Node T.

(** A loop over entries none of which has expired does nothing, whatever the
    application. *)
Lemma checkPitExpire_loop_nothing_expired now k :
  forall s,
    Forall (fun e => now < timeoutTimeMilliseconds_ e) (pendingInterestTable_ s) ->
    (k <= length (pendingInterestTable_ s))%nat ->
    checkPitExpire_loop app k now s = mkRun (Returned tt) s [].
Proof.
  induction k as [|i IH]; intros s Hall Hk; [done|].
  destruct (lookup_lt_is_Some_2 (pendingInterestTable_ s) i) as [e He]; [lia|].
  rewrite (checkPitExpire_loop_S app _ _ _ _ He).
  assert (isTimedOut e now = false) as ->.
  { apply isTimedOut_false. rewrite list.Forall_forall in Hall. apply Hall.
    apply list_elem_of_lookup. eauto. }
  apply IH; [done|lia].
Qed.

Lemma checkPitExpire_nothing_expired s :
  Forall (fun e => nowMilliseconds s < timeoutTimeMilliseconds_ e) (pendingInterestTable_ s) ->
  checkPitExpire app s = mkRun (Returned tt) s [EvTimerArmed 100].
Proof.
  intros Hall. unfold checkPitExpire, bind, ndn_getNowMilliseconds, gets, emit.
  by rewrite checkPitExpire_loop_nothing_expired.
Qed.

(** X12. A tick of the timer on a PIT none of whose entries has expired, an
    empty PIT included, calls nothing and leaves the node as it was,
    whatever the application: it only arms the timer again. *)
Theorem checkPitExpire_without_expired_entry (s : Node T) :
  Forall (fun e => nowMilliseconds s < timeoutTimeMilliseconds_ e) (pendingInterestTable_ s) ->
  checkPitExpire app s = mkRun (Returned tt) s [EvTimerArmed 100].
Proof. apply checkPitExpire_nothing_expired. Qed.

(** What a tick leaves, with closures that leave the PIT and the clock
    alone. *)
Lemma checkPitExpire_leaves s :
  keepsPitAndClock app ->
  pendingInterestTable_ (final (checkPitExpire app s))
    = pendingAt (nowMilliseconds s) (pendingInterestTable_ s) /\
  nowMilliseconds (final (checkPitExpire app s)) = nowMilliseconds s.
Proof.
  intros Hq.
  destruct (checkPitExpire_loop_sweep app (length (pendingInterestTable_ s)) Hq s)
    as (Ho & Hp & Hn & Hev); [done|].
  rewrite firstn_all, drop_all, app_nil_r in Hp.
  unfold checkPitExpire, bind, ndn_getNowMilliseconds, gets, emit.
  destruct (checkPitExpire_loop _ _ _ _) as [o s' evs].
  cbn [outcome events final] in *. by subst o.
Qed.

(** X13. A timeout fires once: with closures that leave the PIT and the
    clock alone, a second tick at the same reading of the clock calls
    nothing and leaves the node as the first tick left it. *)
Theorem checkPitExpire_twice (s : Node T) :
  keepsPitAndClock app ->
  let s1 := final (checkPitExpire app s) in
  checkPitExpire app s1 = mkRun (Returned tt) s1 [EvTimerArmed 100].
Proof.
  intros Hq. cbv zeta. destruct (checkPitExpire_leaves s Hq) as [Hp Hn].
  apply checkPitExpire_nothing_expired. rewrite Hp, Hn.
  unfold pendingAt. apply list.Forall_forall. intros e He.
  by apply list_elem_of_filter in He as [? _].
Qed.

Lemma afterTimeout_appends pi s :
  onlyAppendsToPit app ->
  (exists added,
     pendingInterestTable_ (afterTimeout app pi s) = pendingInterestTable_ s ++ added) /\
  nowMilliseconds (afterTimeout app pi s) = nowMilliseconds s.
Proof.
  intros Happ. unfold afterTimeout. destruct (onTimeout_ pi); [apply Happ|].
  split; [|done]. exists []. by rewrite app_nil_r.
Qed.

(** The backward loop with closures that may express Interests: entries
    appended on the way stay behind the index of the loop. *)
Lemma checkPitExpire_loop_appending k :
  onlyAppendsToPit app ->
  forall s,
    (k <= length (pendingInterestTable_ s))%nat ->
    let now := nowMilliseconds s in
    let pit := pendingInterestTable_ s in
    let r := checkPitExpire_loop app k now s in
    outcome r = Returned tt /\
    (exists added,
       pendingInterestTable_ (final r) = pendingAt now (take k pit) ++ drop k pit ++ added) /\
    nowMilliseconds (final r) = now /\
    events r = timeoutEventsOf (rev (expiredAt now (take k pit))).
Proof.
  intros Happ. induction k as [|i IH]; intros s Hk; cbv zeta.
  - cbn. split_and!; try done. exists []. by rewrite drop_0, app_nil_r.
  - destruct (lookup_lt_is_Some_2 (pendingInterestTable_ s) i) as [e He]; [lia|].
    rewrite (checkPitExpire_loop_S app _ _ _ _ He).
    destruct (lookup_middle _ _ _ He) as (l1 & l2 & Hl & <-).
    rewrite Hl, take_S_middle, drop_S_middle, pendingAt_snoc, expiredAt_snoc.
    destruct (isTimedOut e (nowMilliseconds s)) eqn:Hexp; cbv zeta.
    + rewrite delete_middle.
      set (s' := afterTimeout app e _).
      destruct (afterTimeout_appends e (set_pendingInterestTable (l1 ++ l2) s) Happ)
        as [[added Hpit] Hnow].
      fold s' in Hpit, Hnow. cbn in Hpit, Hnow.
      specialize (IH s'). rewrite Hpit, Hnow in IH. cbv zeta in IH.
      rewrite <- app_assoc, take_app_length, drop_app_length in IH.
      destruct IH as (Ho & [added' Hp] & Hn & Hev); [rewrite length_app; lia|].
      rewrite Hnow, app_nil_r.
      destruct (checkPitExpire_loop _ _ _ _) as [o s'' evs]. cbn in *.
      split_and!; try done.
      * exists (added ++ added'). by rewrite Hp, <- !app_assoc.
      * rewrite Hev, rev_app_distr. done.
    + specialize (IH s). rewrite Hl in IH. cbv zeta in IH.
      rewrite take_app_length, drop_app_length in IH.
      destruct IH as (Ho & [added' Hp] & Hn & Hev); [rewrite length_app; lia|].
      rewrite app_nil_r. split_and!; try done.
      exists added'. by rewrite Hp, <- !app_assoc.
Qed.

(** X14. A tick of the timer with closures that express Interests (they
    may add entries at the end of the PIT, remove none, and leave the clock
    alone): the tick returns; the entries that were in the PIT and have a
    deadline later than the clock stay, in their order, at the front of the
    table; those with a deadline at most the clock are removed and their
    timeouts called, once each, from the last inserted to the first; and
    what the closures added is behind, not examined by this tick. *)
Theorem checkPitExpire_with_expressing_closures (s : Node T) :
  onlyAppendsToPit app ->
  let now := nowMilliseconds s in
  let pit := pendingInterestTable_ s in
  let r := checkPitExpire app s in
  outcome r = Returned tt /\
  (exists added, pendingInterestTable_ (final r) = pendingAt now pit ++ added) /\
  events r = timeoutEventsOf (rev (expiredAt now pit)) ++ [EvTimerArmed 100] /\
  timeoutCalls (events r) = timeoutsOf (rev (expiredAt now pit)).
Proof.
  intros Happ. cbv zeta.
  destruct (checkPitExpire_loop_appending (length (pendingInterestTable_ s)) Happ s)
    as (Ho & [added Hp] & Hn & Hev); [done|].
  rewrite firstn_all, drop_all, app_nil_l in Hp. rewrite firstn_all in Hev.
  unfold checkPitExpire, bind, ndn_getNowMilliseconds, gets, emit.
  destruct (checkPitExpire_loop _ _ _ _) as [o s' evs].
  cbn [outcome events final] in *. subst o evs.
  cbn [outcome events final List.app]. split_and!; try done.
  - by exists added.
  - by rewrite timeoutCalls_timeoutEventsOf, app_nil_r.
Qed.

(** X15. A closure that cancels from inside the sweep. When the last entry
    of a PIT of at least two entries has expired and its timeout closure
    leaves the PIT shorter than the rest of the table (it cancels pending
    Interests), the backward loop next indexes the table beyond its end:
    the behaviour of [checkPitExpire] is undefined. *)
Theorem checkPitExpire_undefined_when_closure_cancels
    (s : Node T) (l : list PendingInterest) (e : PendingInterest) (h : Handler) :
  pendingInterestTable_ s = l ++ [e] ->
  isTimedOut e (nowMilliseconds s) = true ->
  onTimeout_ e = Some h ->
  (length (pendingInterestTable_
             (app (CallOnTimeout h (interest_ e)) (set_pendingInterestTable l s)).2)
   < length l)%nat ->
  outcome (checkPitExpire app s) = Undefined.
Proof.
  intros Hpit Hexp Hh Hshort.
  unfold checkPitExpire, bind, ndn_getNowMilliseconds, gets, emit.
  rewrite Hpit, length_app. cbn [length]. rewrite Nat.add_1_r.
  assert (pendingInterestTable_ s !! length l = Some e) as He.
  { rewrite Hpit. by rewrite list_lookup_middle. }
  rewrite (checkPitExpire_loop_S app _ _ _ _ He), Hexp. cbv zeta.
  rewrite Hpit, delete_middle, app_nil_r.
  unfold afterTimeout at 1 2. rewrite Hh.
  set (s' := (app _ _).2) in *.
  destruct (length l) as [|n] eqn:Hlen; [lia|].
  rewrite checkPitExpire_loop_out_of_range; [done|].
  apply lookup_ge_None. lia.
Qed.

End TimerMore.

(** ** The ids of the PIT along runs of all the operations *)

Section PitIds.

Context {T : Type} `{!Transport T} `{!Codec} `{!NameUri}.
Variable app : App T.
Variable NdndIdFetcher : FetcherOf.
Implicit Type s : Node T.

Lemma StronglySorted_sublist {A} (R : A -> A -> Prop) (l1 l2 : list A) :
  sublist l1 l2 -> StronglySorted R l2 -> StronglySorted R l1.
Proof.
  induction 1 as [|x l1 l2 Hsub IH|x l1 l2 Hsub IH]; intros Hs; [done| |].
  - apply StronglySorted_inv in Hs as [Hs Hx]. constructor; [by apply IH|].
    rewrite list.Forall_forall in *. intros y Hy. apply Hx.
    by eapply elem_of_sublist.
  - apply StronglySorted_inv in Hs as [Hs _]. by apply IH.
Qed.

Lemma StronglySorted_snoc {A} (R : A -> A -> Prop) (l : list A) (y : A) :
  StronglySorted R l -> Forall (fun x => R x y) l -> StronglySorted R (l ++ [y]).
Proof.
  induction 1 as [|x l Hs IH Hx]; intros Hy; cbn; [repeat constructor|].
  apply list.Forall_cons in Hy as [Hxy Hy]. constructor; [by apply IH|].
  apply Forall_app. split; [done|]. by repeat constructor.
Qed.

Lemma Forall_of_sublist {A} (P : A -> Prop) (l1 l2 : list A) :
  sublist l1 l2 -> Forall P l2 -> Forall P l1.
Proof.
  intros Hsub Hall. rewrite list.Forall_forall in *. intros y Hy. apply Hall.
  by eapply elem_of_sublist.
Qed.

(** A node whose PIT is a part of the PIT of a well-formed node, under the
    same counter, is well formed. *)
Lemma pitWellFormed_part s s' :
  sublist (pendingInterestTable_ s') (pendingInterestTable_ s) ->
  lastPendingInterestId_ s' = lastPendingInterestId_ s ->
  pitWellFormed s -> pitWellFormed s'.
Proof.
  intros Hsub Hlast (Hsorted & Hbound & Hpos). unfold pitWellFormed. rewrite Hlast.
  split_and!; [|by eapply Forall_of_sublist|done].
  by eapply StronglySorted_sublist.
Qed.

Lemma checkPitExpire_loop_part k :
  keepsPitAndIds app ->
  forall now s,
    let s' := final (checkPitExpire_loop app k now s) in
    sublist (pendingInterestTable_ s') (pendingInterestTable_ s) /\
    lastPendingInterestId_ s' = lastPendingInterestId_ s.
Proof.
  intros Hkeep. induction k as [|i IH]; intros now s; cbv zeta; [done|].
  destruct (pendingInterestTable_ s !! i) as [pi|] eqn:Hpi.
  - rewrite (checkPitExpire_loop_S app _ _ _ _ Hpi).
    destruct (isTimedOut pi now); [|apply IH]. cbv zeta.
    set (s1 := afterTimeout app pi _).
    assert (pendingInterestTable_ s1 = delete i (pendingInterestTable_ s) /\
            lastPendingInterestId_ s1 = lastPendingInterestId_ s) as [Hp Hl].
    { unfold s1, afterTimeout. destruct (onTimeout_ pi); [|done].
      destruct (Hkeep (CallOnTimeout h (interest_ pi))
                  (set_pendingInterestTable (delete i (pendingInterestTable_ s)) s))
        as [-> ->]. done. }
    destruct (IH (nowMilliseconds s1) s1) as [Hsub Hlast]. rewrite Hp, Hl in *.
    destruct (checkPitExpire_loop _ _ _ _) as [o s2 evs]. cbn [final] in *.
    split; [|done]. etrans; [exact Hsub|apply sublist_delete].
  - by rewrite checkPitExpire_loop_out_of_range.
Qed.

Lemma checkPitExpire_part s :
  keepsPitAndIds app ->
  let s' := final (checkPitExpire app s) in
  sublist (pendingInterestTable_ s') (pendingInterestTable_ s) /\
  lastPendingInterestId_ s' = lastPendingInterestId_ s.
Proof.
  intros Hkeep. cbv zeta.
  destruct (checkPitExpire_loop_part (length (pendingInterestTable_ s)) Hkeep
              (nowMilliseconds s) s) as [Hsub Hlast].
  unfold checkPitExpire, bind, ndn_getNowMilliseconds, gets, emit.
  by destruct (checkPitExpire_loop _ _ _ _) as [[[]|e|] s' evs].
Qed.

Lemma onReceiveElement_part block s :
  keepsPitAndIds app ->
  let s' := final (onReceiveElement app block s) in
  sublist (pendingInterestTable_ s') (pendingInterestTable_ s) /\
  lastPendingInterestId_ s' = lastPendingInterestId_ s.
Proof.
  intros Hkeep. cbv zeta. unfold onReceiveElement.
  destruct (Block_type block =? Tlv_Interest)%N.
  - destruct (Interest_wireDecode block) as [interest|]; [|done].
    unfold bind, decode, ret, gets.
    destruct (getEntryForRegisteredPrefix _ _) as [[i entry]|]; [|done].
    rewrite call_function_run. destruct (onInterest_ entry) as [h|]; [|done].
    cbn. by destruct (Hkeep (CallOnInterest h (prefix_ entry) interest
                               (registeredPrefixId_ entry)) s) as [-> ->].
  - destruct (Block_type block =? Tlv_Data)%N; [|done].
    destruct (Data_wireDecode block) as [data|]; [|done].
    unfold bind, decode, ret, gets, modify.
    destruct (getEntryIndexForExpressedInterest _ _) as [[i entry]|]; [|done].
    rewrite call_function_run. destruct (onData_ entry) as [h|]; cbn.
    + destruct (Hkeep (CallOnData h (interest_ entry) data)
                  (set_pendingInterestTable (delete i (pendingInterestTable_ s)) s))
        as [-> ->]. cbn. split; [apply sublist_delete|done].
    + split; [apply sublist_delete|done].
Qed.

(** [expressInterest] keeps the PIT well formed as long as the counter does
    not wrap, and moves the counter by at most one. *)
Lemma expressInterest_pitWellFormed interest onData onTimeout s :
  pitWellFormed s ->
  lastPendingInterestId_ s + 1 < uint64_modulus ->
  let s' := final (expressInterest interest onData onTimeout s) in
  pitWellFormed s' /\
  lastPendingInterestId_ s <= lastPendingInterestId_ s' <= lastPendingInterestId_ s + 1.
Proof.
  intros (Hsorted & Hbound & Hpos) Hwrap. cbv zeta. rewrite expressInterest_run.
  destruct (connectResult s) as [e|]; cbn [final].
  - split; [|rewrite afterConnect_lastPendingInterestId; lia].
    unfold pitWellFormed.
    by rewrite afterConnect_pendingInterestTable, afterConnect_lastPendingInterestId.
  - cbv zeta. unfold withEntry, entryFor, pitWellFormed. cbn.
    rewrite (nextPendingInterestId_small s) by lia. split; [|lia].
    split_and!; [| |lia].
    + unfold idsIncreasing in *. apply StronglySorted_snoc; [done|].
      cbn. eapply list.Forall_impl; [exact Hbound|]. cbn. intros; lia.
    + apply Forall_app. split; [|repeat constructor; cbn; lia].
      eapply list.Forall_impl; [exact Hbound|]. cbn. intros; lia.
Qed.

(** One action. *)
Lemma act_pitWellFormed a s :
  keepsPitAndIds app ->
  pitWellFormed s ->
  lastPendingInterestId_ s + Z.of_nat (drawCount [a]) < uint64_modulus ->
  let s' := final (act app NdndIdFetcher a s) in
  pitWellFormed s' /\
  lastPendingInterestId_ s' <= lastPendingInterestId_ s + Z.of_nat (drawCount [a]).
Proof.
  intros Hkeep Hwf Hwrap. cbv zeta.
  destruct a as [interest onData onTimeout|id|prefix onInterest onRegisterFailed flags
                 |id|block|now]; cbn [act drawCount] in *.
  - destruct (expressInterest_pitWellFormed interest onData onTimeout s Hwf) as [Hwf' Hl];
      [lia|].
    unfold bind. destruct (expressInterest _ _ _ _) as [[id|e|] s' evs]; cbn in *;
      (split; [done|lia]).
  - rewrite removePendingInterest_run. cbn [final]. split; [|cbn; lia].
    apply (pitWellFormed_part s); [|done|done]. cbn. apply sublist_filter.
  - assert (final ((registerPrefix NdndIdFetcher prefix onInterest onRegisterFailed flags;;
                     ret tt) s)
            = final (registerPrefix NdndIdFetcher prefix onInterest onRegisterFailed flags s))
      as ->.
    { unfold bind at 1. by destruct (registerPrefix _ _ _ _ _ _) as [[id|e|] s' evs]. }
    destruct (decide (ndndId_ s = [])) as [Hunknown|Hknown].
    + unfold registerPrefix, getNextRegisteredPrefixId. unfold bind at 1 2 3 4. cbn.
      rewrite Hunknown. cbn [length Nat.eqb]. unfold bind.
      set (s0 := set_lastRegisteredPrefixId _ s).
      assert (pitWellFormed s0) as Hwf0 by done.
      destruct (expressInterest_pitWellFormed ndndIdFetcherInterest_
                  (Some (NdndIdFetcher ((lastRegisteredPrefixId_ s + 1) mod uint64_modulus)
                           prefix onInterest onRegisterFailed flags))
                  (Some (NdndIdFetcher ((lastRegisteredPrefixId_ s + 1) mod uint64_modulus)
                           prefix onInterest onRegisterFailed flags)) s0 Hwf0) as [Hwf' Hl];
        [cbn; lia|].
      destruct (expressInterest _ _ _ _) as [[id|e|] s' evs]; cbn in *;
        (split; [done|lia]).
    + rewrite (registerPrefix_known_run _ _ _ _ _ _ Hknown). cbv zeta. cbn [final].
      split; [exact Hwf|cbn; lia].
  - rewrite removeRegisteredPrefix_run. cbn [final]. split; [done|cbn; lia].
  - destruct (onReceiveElement_part block s Hkeep) as [Hsub Hlast].
    split; [by apply (pitWellFormed_part s)|lia].
  - unfold bind, modify.
    destruct (checkPitExpire_part (set_nowMilliseconds now s) Hkeep) as [Hsub Hlast].
    destruct (checkPitExpire _ _) as [[[]|e|] s' evs]; cbn [final] in *;
      (split; [by apply (pitWellFormed_part s)|cbn in Hlast; lia]).
Qed.

Lemma drawCount_cons a acts :
  drawCount (a :: acts) = (drawCount [a] + drawCount acts)%nat.
Proof. by destruct a. Qed.

(** X16. Along every run of the operations of the node (expressing and
    cancelling Interests, registering and removing prefixes, blocks coming
    in and ticks of the timer) from a node whose PIT is well formed, a fresh
    node for one, with closures that leave the PIT and its counter alone,
    and as long as the counter does not wrap: the PIT stays well formed,
    its ids increasing strictly along the table and being at most the
    counter. *)
Theorem runActions_keeps_pit_ids_increasing (acts : list Action) (s : Node T) :
  keepsPitAndIds app ->
  pitWellFormed s ->
  lastPendingInterestId_ s + Z.of_nat (drawCount acts) < uint64_modulus ->
  pitWellFormed (runActions app NdndIdFetcher acts s).
Proof.
  intros Hkeep. revert s. induction acts as [|a acts IH]; intros s Hwf Hwrap; [done|].
  rewrite drawCount_cons, Nat2Z.inj_add in Hwrap. cbn [runActions].
  destruct (act_pitWellFormed a s Hkeep Hwf) as [Hwf' Hlast]; [lia|].
  destruct (outcome _); [apply IH; [done|lia]|apply IH; [done|lia]|done].
Qed.

End PitIds.

(** ** Dispatch after the removal of a registered prefix *)

Section AfterRemoval.

Context {T : Type} `{!Transport T} `{!Codec} `{!NameUri}.
Variable app : App T.
Variable NdndIdFetcher : FetcherOf.
Implicit Type s : Node T.








End AfterRemoval.

(** X17. In a well-formed PIT the ids are pairwise distinct, and a
    cancellation removes at most one entry. *)
Theorem pitWellFormed_at_most_one_entry_per_id {T} (s : Node T) (id : Z) :
  pitWellFormed s ->
  NoDup (pendingInterestId_ <$> pendingInterestTable_ s) /\
  (length (pendingInterestTable_ s)
   <= S (length (pendingInterestTable_ (final (removePendingInterest id s)))))%nat.
Proof.
  intros (Hsorted & _ & _). rewrite removePendingInterest_run. cbn [final].
  unfold idsIncreasing, keptBy in *. cbn.
  induction Hsorted as [|x l Hs [IHnd IHlen] Hx]; [split; [constructor|cbn; lia]|].
  rewrite list.Forall_forall in Hx. split.
  - cbn. apply list.NoDup_cons. split; [|done].
    intros Hin. apply list_elem_of_fmap in Hin as (y & Hy & Hin).
    specialize (Hx y Hin). lia.
  - destruct (decide (pendingInterestId_ x = id)) as [Heq|Hne].
    + rewrite filter_cons_False by (intros Hne; by apply Hne).
      assert (filter (fun e => pendingInterestId_ e <> id) l = l) as ->; [|cbn; lia].
      apply keptBy_id. apply list.Forall_forall. intros y Hy. specialize (Hx y Hy). lia.
    + rewrite filter_cons_True by done. cbn in *. lia.
Qed.

(** ** What [expressInterest] does to the outside and leaves alone *)

Section ExpressInterestMore.

Context {T : Type} `{!Transport T} `{!Codec}.
Implicit Type s : Node T.

(** X18. [expressInterest] connects only a transport that is not connected,
    and then sends the wire encoding of the Interest, once; when [connect]
    raises nothing is sent.  It leaves the registered prefix table, the id
    of the hub and the clock alone. *)
Theorem expressInterest_interactions
    (interest : Interest) (onData : OnData) (onTimeout : OnTimeout) (s : Node T) :
  let r := expressInterest interest onData onTimeout s in
  events r =
    (if Transport_isConnected (transport_ s) then [] else [EvConnect])
      ++ match connectResult s with
         | Some _ => []
         | None => [EvSend (Interest_wireEncode interest)]
         end /\
  registeredPrefixTable_ (final r) = registeredPrefixTable_ s /\
  ndndId_ (final r) = ndndId_ s /\
  nowMilliseconds (final r) = nowMilliseconds s.
Proof.
  cbv zeta. rewrite expressInterest_run.
  unfold connectResult, connectEvents, withEntry, afterConnect.
  destruct (Transport_isConnected (transport_ s)); cbn.
  - done.
  - destruct (Transport_connect (transport_ s)) as [[e|] t]; cbn; done.
Qed.

End ExpressInterestMore.

(** ** Exceptions and the timer *)

(** X19. Whatever the closures of the application do, raising included, a
    tick of the timer lets no exception out: [callTimeout] always returns,
    leaving the node as the closure left it, and [checkPitExpire] never ends
    by an exception. *)
Theorem checkPitExpire_never_raises {T} (app : App T) :
  (forall pi s,
     callTimeout app pi s = mkRun (Returned tt) (afterTimeout app pi s) (timeoutEvents pi)) /\
  (forall s e, outcome (checkPitExpire app s) <> Raised e).
Proof. split; [apply callTimeout_run|apply checkPitExpire_not_raised]. Qed.

(** ** The further properties on concrete inputs *)


Lemma registerPrefixHelper_then_remove_witness :
  let r1 := registerPrefixHelper 7 (uri "/p") (Some 3%nat) None 0 nodeTwoPrefixes in
  let r2 := removeRegisteredPrefix 7 (final r1) in
  registeredPrefixTable_ (final r2) = registeredPrefixTable_ nodeTwoPrefixes /\
  events r1 ++ events r2
    = [EvSend (Interest_wireEncode
                 (selfRegistrationInterest (ndndId_ nodeTwoPrefixes) (uri "/p") 0))].
Proof.
  apply (registerPrefixHelper_then_remove 7 (uri "/p") (Some 3%nat) None 0 nodeTwoPrefixes).
  repeat constructor; vm_compute; discriminate.
Defined.

Lemma onReceiveElement_drops_in_silence_witness :
  onReceiveElement quietApp [x09; x2f; x61] nodeTwoPrefixes
    = mkRun (Returned tt) nodeTwoPrefixes [] /\
  onReceiveElement quietApp blockInterestAX nodeTwoExpired
    = mkRun (Returned tt) nodeTwoExpired [].
Proof.
  split.
  - apply (onReceiveElement_drops_in_silence quietApp [x09; x2f; x61] nodeTwoPrefixes).
    left. split; vm_compute; discriminate.
  - apply (onReceiveElement_drops_in_silence quietApp blockInterestAX nodeTwoExpired).
    right. split_and!; [reflexivity|by eexists|reflexivity].
Defined.

Lemma onReceiveElement_decode_failure_witness :
  @onReceiveElement _ pickyCodec quietApp [x05] nodeTwoPrefixes
    = mkRun (Raised DecodeError) nodeTwoPrefixes [].
Proof.
  apply (@onReceiveElement_decode_failure _ pickyCodec quietApp [x05] nodeTwoPrefixes).
  left. split; reflexivity.
Defined.

Lemma getEntryForRegisteredPrefix_right_when_it_matches_witness :
  longestMatching (uri "/a/b/c") [registeredA; registeredAB] (Some (1%nat, registeredAB)) /\
  spec_longestMatch (uri "/a/b/c") [registeredA; registeredAB] = Some (1%nat, registeredAB).
Proof.
  apply (getEntryForRegisteredPrefix_right_when_it_matches (uri "/a/b/c")
           [registeredA; registeredAB] 1 registeredAB); reflexivity.
Defined.

Lemma registerPrefix_with_known_hub_witness :
  let r := registerPrefix testFetcher (uri "/p") (Some 3%nat) (Some 4%nat) 0 nodeKnownHub in
  let wire := Interest_wireEncode
                (selfRegistrationInterest (ndndId_ nodeKnownHub) (uri "/p") 0) in
  exists id,
    registeredPrefixTable_ (final r)
      = registeredPrefixTable_ nodeKnownHub ++ [mkRegisteredPrefix id (uri "/p") (Some 3%nat)] /\
    events r = [EvSend wire] /\
    pendingInterestTable_ (final r) = pendingInterestTable_ nodeKnownHub /\
    lastPendingInterestId_ (final r) = lastPendingInterestId_ nodeKnownHub /\
    outcome r = match (Transport_send wire (transport_ nodeKnownHub)).1 with
                | None => Returned id
                | Some e => Raised e
                end.
Proof.
  apply (registerPrefix_with_known_hub testFetcher (uri "/p") (Some 3%nat) (Some 4%nat) 0
           nodeKnownHub).
  vm_compute. discriminate.
Defined.

Lemma registerPrefix_with_unknown_hub_witness :
  let s := Node_new goodTransport 50 in
  let r := registerPrefix testFetcher (uri "/p") (Some 3%nat) (Some 4%nat) 0 s in
  registeredPrefixTable_ (final r) = [] /\
  pendingInterestTable_ (final r)
    = [mkPendingInterest 1 ndndIdFetcherInterest_ (Some 1001%nat) (Some 1001%nat) 4050] /\
  outcome r = Returned 1.
Proof.
  destruct (registerPrefix_with_unknown_hub testFetcher (uri "/p") (Some 3%nat) (Some 4%nat) 0
              (Node_new goodTransport 50)) as (id & Hrpt & Hrest); [reflexivity|].
  split; [exact Hrpt|]. vm_compute. done.
Defined.

Lemma expressInterest_then_data_witness :
  let interest := Interest_of_name_lifetime (uri "/a/b") 1000 in
  let s1 := final (expressInterest interest (Some 1%nat) (Some 2%nat)
                     (Node_new goodTransport 0)) in
  let s2 := set_pendingInterestTable [] s1 in
  let c := CallOnData 1%nat interest dataABC in
  onReceiveElement quietApp blockDataABC s1
    = mkRun (outcome_of (quietApp c s2).1) (quietApp c s2).2 [EvCall c].
Proof.
  apply (expressInterest_then_data quietApp (Interest_of_name_lifetime (uri "/a/b") 1000)
           1%nat (Some 2%nat) blockDataABC dataABC (Node_new goodTransport 0)).
  - reflexivity.
  - constructor.
  - reflexivity.
  - vm_compute. discriminate.
  - reflexivity.
  - reflexivity.
Defined.

Lemma expressInterest_then_cancel_witness :
  let s1 := final (expressInterest interestA1000 None None nodeTwoExpired) in
  pendingInterestTable_ (final (removePendingInterest 3 s1))
    = pendingInterestTable_ nodeTwoExpired.
Proof.
  apply (expressInterest_then_cancel interestA1000 None None nodeTwoExpired 3).
  - reflexivity.
  - repeat constructor; vm_compute; discriminate.
Defined.

Lemma checkPitExpire_without_expired_entry_witness :
  checkPitExpire raisingApp nodeThreePending
    = mkRun (Returned tt) nodeThreePending [EvTimerArmed 100].
Proof.
  apply (checkPitExpire_without_expired_entry raisingApp nodeThreePending).
  repeat constructor.
Defined.

Lemma checkPitExpire_twice_witness :
  let s1 := final (checkPitExpire quietApp nodeTwoExpired) in
  checkPitExpire quietApp s1 = mkRun (Returned tt) s1 [EvTimerArmed 100].
Proof.
  apply (checkPitExpire_twice quietApp nodeTwoExpired).
  intros c s. split; reflexivity.
Defined.

Lemma expressingApp_onlyAppends : onlyAppendsToPit expressingApp.
Proof.
  intros c s. unfold expressingApp. cbn [snd]. rewrite expressInterest_run.
  destruct (connectResult s); cbn [final].
  - rewrite afterConnect_pendingInterestTable, afterConnect_nowMilliseconds.
    split; [|done]. exists []. by rewrite app_nil_r.
  - cbv zeta. unfold withEntry. cbn. rewrite afterConnect_nowMilliseconds.
    split; [|done]. by eexists.
Qed.

Lemma checkPitExpire_with_expressing_closures_witness :
  let s := nodeTwoExpired in
  let r := checkPitExpire expressingApp s in
  outcome r = Returned tt /\
  (exists added, pendingInterestTable_ (final r)
                 = pendingAt 500 (pendingInterestTable_ s) ++ added) /\
  events r = timeoutEventsOf (rev (expiredAt 500 (pendingInterestTable_ s)))
               ++ [EvTimerArmed 100] /\
  timeoutCalls (events r) = timeoutsOf (rev (expiredAt 500 (pendingInterestTable_ s))).
Proof.
  apply (checkPitExpire_with_expressing_closures expressingApp nodeTwoExpired).
  exact expressingApp_onlyAppends.
Defined.

Lemma checkPitExpire_undefined_when_closure_cancels_witness :
  outcome (checkPitExpire cancellingApp nodeTwoExpired) = Undefined.
Proof.
  apply (checkPitExpire_undefined_when_closure_cancels cancellingApp nodeTwoExpired
           [pendingA] pendingB 22%nat).
  - reflexivity.
  - reflexivity.
  - reflexivity.
  - vm_compute. lia.
Defined.

Lemma runActions_keeps_pit_ids_increasing_witness :
  pitWellFormed (runActions quietApp testFetcher sixActions (Node_new goodTransport 0)).
Proof.
  apply (runActions_keeps_pit_ids_increasing quietApp testFetcher sixActions
           (Node_new goodTransport 0)).
  - intros c s. split; reflexivity.
  - split_and!; [constructor|constructor|reflexivity].
  - reflexivity.
Defined.

Lemma pitWellFormed_at_most_one_entry_per_id_witness :
  NoDup (pendingInterestId_ <$> pendingInterestTable_ nodeTwoExpired) /\
  (length (pendingInterestTable_ nodeTwoExpired)
   <= S (length (pendingInterestTable_ (final (removePendingInterest 1 nodeTwoExpired)))))%nat.
Proof.
  apply (pitWellFormed_at_most_one_entry_per_id nodeTwoExpired 1).
  split_and!.
  - repeat constructor.
  - repeat constructor; vm_compute; discriminate.
  - vm_compute. discriminate.
Defined.
